(** * yETH front end: the claim flow and the tab selection

    A shallow embedding of the computational parts of
    [src/components/bootstrapViews/Claim.tsx] (incentive aggregation,
    selection toggling, multicall batching) and of the mount effect of the
    [YETH] component (initial tab from the URL). *)

From Stdlib Require Import ZArith String Ascii List Bool Lia.
From Stdlib Require Import Floats.SpecFloat.
From stdpp Require Import gmap strings list.

Local Open Scope string_scope.
Local Open Scope list_scope.
Local Open Scope Z_scope.

(** ** JavaScript numbers

    A JS [number] is an IEEE-754 binary64 value.  The Standard Library's
    [spec_float] with [prec = 53] and [emax = 1024] is that format, with
    round-to-nearest-even arithmetic. *)

Module JsNumber.

Definition number : Type := spec_float.

Definition prec : Z := 53.
Definition emax : Z := 1024.

(** [a * b], [a / b] and [a + b] on numbers. *)
Definition mul (a b : number) : number := SFmul prec emax a b.
Definition div (a b : number) : number := SFdiv prec emax a b.
Definition add (a b : number) : number := SFadd prec emax a b.

(** A numeric literal with an integer value. *)
Definition of_Z (z : Z) : number := binary_normalize prec emax z 0 false.

(** [a === b] and [a < b] on numbers. *)
Definition strict_eq (a b : number) : bool := SFeqb a b.
Definition lt (a b : number) : bool := SFltb a b.

(** ToBoolean on a number: [NaN], [+0] and [-0] are falsy. *)
Definition truthy (a : number) : bool :=
  match a with
  | S754_nan | S754_zero _ => false
  | _ => true
  end.

(** [a || 0]. *)
Definition or_zero (a : number) : number := if truthy a then a else of_Z 0.

(** [Number(a)] is the identity on a number. *)
Definition Number (a : number) : number := a.

(** Neither [NaN] nor an infinity. *)
Definition is_finite (a : number) : bool :=
  match a with
  | S754_zero _ | S754_finite _ _ _ => true
  | _ => false
  end.

Definition is_zero (a : number) : bool :=
  match a with
  | S754_zero _ => true
  | _ => false
  end.

(** Whether the number is the image of some integer literal. *)
Definition is_integer (a : number) : bool :=
  match a with
  | S754_zero _ => true
  | S754_finite _ m e =>
      (0 <=? e) || (Z.land (Zpos m) (Z.ones (- e)) =? 0)
  | _ => false
  end.

End JsNumber.

(** ** BigInt arithmetic and thrown exceptions *)

(** A computation either completes with a value or throws the
    [RangeError] of a BigInt division by [0n]. *)
Inductive Result (A : Type) : Type :=
| Ok (a : A)
| RangeError.
Arguments Ok {A} a.
Arguments RangeError {A}.

Definition bind {A B : Type} (r : Result A) (k : A -> Result B) : Result B :=
  match r with
  | Ok a => k a
  | RangeError => RangeError
  end.

Notation "'let*' x ':=' r 'in' k" := (bind r (fun x => k))
  (at level 10, x pattern, r at level 100, k at level 200).

Module BigInt.

(** [a / b] on bigints: truncation toward zero, [RangeError] on [0n]. *)
Definition div (a b : Z) : Result Z :=
  if b =? 0 then RangeError else Ok (Z.quot a b).

End BigInt.

(** ** Arrays *)

Module JsArray.

(** [arr.findIndex(pred)]; [None] stands for [-1]. *)
Fixpoint findIndex {A : Type} (pred : A -> bool) (arr : list A) : option nat :=
  match arr with
  | [] => None
  | x :: rest => if pred x then Some 0%nat else S <$> findIndex pred rest
  end.

End JsArray.

(** ** The data of the claim flow *)

Definition TAddress : Type := string.
Definition Hex : Type := string.

(** [TNormalizedBN]: a raw bigint and its normalized figure.  The
    component reads the figure through [Number(...)] only; the field
    holds the number that coercion yields. *)
Record TNormalizedBN : Type := mkNormalizedBN {
  raw : Z;
  normalized : JsNumber.number
}.

(** The fields of a token the component reads. *)
Module TTokenInfo.
Record t : Type := mk {
  address : TAddress;
  symbol : string;
  decimals : Z
}.
End TTokenInfo.

(** One incentive of a protocol, as the incentive history gives it. *)
Module TIncentives.
Record t : Type := mk {
  protocolName : string;
  incentive : TAddress;
  value : JsNumber.number;
  amount : Z;
  incentiveToken : option TTokenInfo.t
}.
End TIncentives.

(** The entry of one protocol in [groupIncentiveHistory.protocols]. *)
Module TGroupIncentive.
Record t : Type := mk {
  incentives : list TIncentives.t
}.
End TGroupIncentive.

(** An element of [claimedIncentives]; only its [id] is read. *)
Module TClaimedIncentive.
Record t : Type := mk {
  id : string
}.
End TClaimedIncentive.

Module TMulticall.
Record t : Type := mk {
  target : TAddress;
  callData : Hex
}.
End TMulticall.

Module TClaimDetails.
Record t : Type := mk {
  id : string;
  protocolName : string;
  value : JsNumber.number;
  amount : TNormalizedBN;
  token : option TTokenInfo.t;
  isSelected : bool;
  multicall : TMulticall.t
}.

Definition set_isSelected (b : bool) (c : t) : t :=
  mk (id c) (protocolName c) (value c) (amount c) (token c) b (multicall c).
End TClaimDetails.

(** [voteData]: the winners, in order, and the votes the user cast. *)
Module TVoteData.
Record t : Type := mk {
  winners : list TAddress;
  votesUsed : TNormalizedBN
}.
End TVoteData.

(** An element of [whitelistedLST]: [item.extra.votes] may be absent. *)
Module TWhitelistedLST.
Record t : Type := mk {
  votes : option Z
}.
End TWhitelistedLST.

(** ** The [Claim] component *)

Module ClaimView.

(** What the effect reads from the hooks: its dependency list. *)
Record Deps : Type := mkDeps {
  totalVotes : TNormalizedBN;
  claimedIncentives : option (list TClaimedIncentive.t);
  voteData : TVoteData.t;
  protocols : gmap string TGroupIncentive.t;
  address : option string
}.

(** The two state cells the effect writes. *)
Record State : Type := mkState {
  claimableIncentive : list TClaimDetails.t;
  totalIncentiveValue : JsNumber.number
}.

Definition initialState : State := mkState [] (JsNumber.of_Z 0).

(** How one run of the effect ends: the early [return], the batched
    state update, or an uncaught exception. *)
Inductive Outcome : Type :=
| Returned
| Updated (claimData : list TClaimDetails.t) (_totalIncentiveValue : JsNumber.number)
| Thrown.

Definition applyOutcome (o : Outcome) (st : State) : State :=
  match o with
  | Updated claimData total => mkState claimData total
  | Returned | Thrown => st
  end.

(** [votes || 0n] *)
Definition votesOrZero (votes : option Z) : Z :=
  match votes with
  | Some v => if v =? 0 then 0 else v
  | None => 0
  end.

(** [incentive?.incentiveToken?.decimals || 18] *)
Definition decimalsOr18 (incentive : TIncentives.t) : Z :=
  match TIncentives.incentiveToken incentive with
  | Some tok => if TTokenInfo.decimals tok =? 0 then 18 else TTokenInfo.decimals tok
  | None => 18
  end.

Section Externals.

(** Library functions and constants the component imports: address
    normalisation, bigint normalisation, ABI encoding of a call to the
    bootstrap contract, and the contract's configured address. *)
Variable toAddress : option string -> TAddress.
Variable toNormalizedBN : Z -> option Z -> TNormalizedBN.
Variable encodeFunctionData : string -> list TAddress -> Hex.
Variable BOOTSTRAP_ADDRESS : option string.

(** The [totalVotes] memo: the sum of the votes of every whitelisted LST. *)
Definition sumVotes (whitelistedLST : list TWhitelistedLST.t) : Z :=
  fold_left (fun sum item => sum + votesOrZero (TWhitelistedLST.votes item))
    whitelistedLST 0.

Definition computeTotalVotes (whitelistedLST : list TWhitelistedLST.t) : TNormalizedBN :=
  toNormalizedBN (sumVotes whitelistedLST) None.

Section Aggregation.

Variable deps : Deps.

(** [incentive.value * Number(votesUsed.normalized || 0) / Number(totalVotes.normalized)] *)
Definition valueOfThis (incentive : TIncentives.t) : JsNumber.number :=
  JsNumber.div
    (JsNumber.mul (TIncentives.value incentive)
       (JsNumber.Number (JsNumber.or_zero (normalized (TVoteData.votesUsed (voteData deps))))))
    (JsNumber.Number (normalized (totalVotes deps))).

(** [incentive.amount * votesUsed.raw / totalVotes.raw], in bigints. *)
Definition rawAmountOfThis (incentive : TIncentives.t) : Result Z :=
  BigInt.div (TIncentives.amount incentive * raw (TVoteData.votesUsed (voteData deps)))
    (raw (totalVotes deps)).

Definition amountOfThis (incentive : TIncentives.t) : Result TNormalizedBN :=
  let* q := rawAmountOfThis incentive in
  Ok (toNormalizedBN q (Some (decimalsOr18 incentive))).

(** The composite key [`${protocol}-${incentive.incentive}-${toAddress(address)}`]. *)
Definition idOf (protocol : TAddress) (incentive : TIncentives.t) : string :=
  String.append protocol
    (String.append "-"
       (String.append (TIncentives.incentive incentive)
          (String.append "-" (toAddress (address deps))))).

Definition hasId (id : string) (claimData : list TClaimDetails.t) : bool :=
  match List.find (fun item => String.eqb (TClaimDetails.id item) id) claimData with
  | Some _ => true
  | None => false
  end.

Definition isClaimed (id : string) (claimed : list TClaimedIncentive.t) : bool :=
  match List.find (fun item => String.eqb (TClaimedIncentive.id item) id) claimed with
  | Some _ => true
  | None => false
  end.

(** The record pushed for a claimable incentive. *)
Definition claimDetails (protocol : TAddress) (incentive : TIncentives.t)
    (amount : TNormalizedBN) : TClaimDetails.t :=
  TClaimDetails.mk
    (idOf protocol incentive)
    (TIncentives.protocolName incentive)
    (valueOfThis incentive)
    amount
    (TIncentives.incentiveToken incentive)
    true
    (TMulticall.mk
       (toAddress BOOTSTRAP_ADDRESS)
       (encodeFunctionData "claim_incentive"
          [toAddress (Some protocol);
           toAddress (Some (TIncentives.incentive incentive));
           toAddress (address deps)])).

(** The record pushed for an incentive once the bigint division has
    produced its quotient. *)
Definition recordOf (protocol : TAddress) (incentive : TIncentives.t) : TClaimDetails.t :=
  claimDetails protocol incentive
    (toNormalizedBN
       (Z.quot (TIncentives.amount incentive * raw (TVoteData.votesUsed (voteData deps)))
          (raw (totalVotes deps)))
       (Some (decimalsOr18 incentive))).

(** The two accumulators of the loops: [claimData] and [_totalIncentiveValue]. *)
Definition Acc : Type := (list TClaimDetails.t * JsNumber.number)%type.

(** The body of the inner loop, for one incentive of [protocol]. *)
Definition processIncentive (claimed : list TClaimedIncentive.t) (protocol : TAddress)
    (acc : Acc) (incentive : TIncentives.t) : Result Acc :=
  let '(claimData, total) := acc in
  let v := valueOfThis incentive in
  let* a := amountOfThis incentive in
  let id := idOf protocol incentive in
  if hasId id claimData then Ok (claimData, total)
  else if isClaimed id claimed then Ok (claimData, JsNumber.add total v)
  else Ok (claimData ++ [claimDetails protocol incentive a], JsNumber.add total v).

(** [for (const incentive of incentivesForThisProtocol.incentives)] *)
Fixpoint forIncentives (claimed : list TClaimedIncentive.t) (protocol : TAddress)
    (incentives : list TIncentives.t) (acc : Acc) : Result Acc :=
  match incentives with
  | [] => Ok acc
  | incentive :: rest =>
      let* acc' := processIncentive claimed protocol acc incentive in
      forIncentives claimed protocol rest acc'
  end.

(** [for (const protocol of voteData.winners)] *)
Fixpoint forWinners (claimed : list TClaimedIncentive.t) (winners : list TAddress)
    (acc : Acc) : Result Acc :=
  match winners with
  | [] => Ok acc
  | protocol :: rest =>
      match protocols deps !! protocol with
      | None => forWinners claimed rest acc
      | Some incentivesForThisProtocol =>
          let* acc' := forIncentives claimed protocol
                         (TGroupIncentive.incentives incentivesForThisProtocol) acc in
          forWinners claimed rest acc'
      end
  end.

(** The incentives the two loops visit, in order, each with its protocol. *)
Definition processed (winners : list TAddress) : list (TAddress * TIncentives.t) :=
  List.flat_map
    (fun protocol =>
       match protocols deps !! protocol with
       | None => []
       | Some incentivesForThisProtocol =>
           List.map (pair protocol) (TGroupIncentive.incentives incentivesForThisProtocol)
       end)
    winners.

(** The loop body run over a list of visits. *)
Fixpoint forProcessed (claimed : list TClaimedIncentive.t)
    (visits : list (TAddress * TIncentives.t)) (acc : Acc) : Result Acc :=
  match visits with
  | [] => Ok acc
  | (protocol, incentive) :: rest =>
      let* acc' := processIncentive claimed protocol acc incentive in
      forProcessed claimed rest acc'
  end.

(** The effect that derives the claimable incentives. *)
Definition claimEffect : Outcome :=
  if raw (totalVotes deps) =? 0 then Returned
  else
    match claimedIncentives deps with
    | None => Returned
    | Some claimed =>
        match forWinners claimed (TVoteData.winners (voteData deps)) ([], JsNumber.of_Z 0) with
        | Ok (claimData, total) => Updated claimData total
        | RangeError => Thrown
        end
    end.

End Aggregation.

End Externals.

(** The same dependencies with another list of winners. *)
Definition withWinners (winners : list TAddress) (deps : Deps) : Deps :=
  mkDeps (totalVotes deps) (claimedIncentives deps)
    (TVoteData.mk winners (TVoteData.votesUsed (voteData deps)))
    (protocols deps) (address deps).

(** The claimable value as the design text words it: integer arithmetic
    on raw units, [valueUnits * votesUsed.raw / totalVotes.raw]. *)
Definition claimableValue_fixedPoint (deps : Deps) (valueUnits : Z) : Z :=
  Z.quot (valueUnits * raw (TVoteData.votesUsed (voteData deps))) (raw (totalVotes deps)).

(** [totalToClaim] of [Claim]: the sum of every claimable value. *)
Definition totalToClaim (claimableIncentive : list TClaimDetails.t) : JsNumber.number :=
  fold_left (fun total incentive => JsNumber.add total (TClaimDetails.value incentive))
    claimableIncentive (JsNumber.of_Z 0).

(** *** The claimable list as React holds it

    The state cell holds an array of references to record objects;
    [onUpdateIncentive] copies the array, not the objects, and writes the
    flag through the copied reference. *)

Definition Ref : Type := nat.

Record Store : Type := mkStore {
  heap : gmap Ref TClaimDetails.t;
  refs : list Ref
}.

(** The records the array shows, in order. *)
Definition records (st : Store) : list (option TClaimDetails.t) :=
  (fun r => heap st !! r) <$> refs st.

(** [set_claimableIncentive(claimData)] for a freshly built [claimData]:
    every pushed record is an object of its own. *)
Definition storeOf (claimData : list TClaimDetails.t) : Store :=
  mkStore (map_seq 0%nat claimData) (seq 0%nat (length claimData)).

(** [item.id === id], read through the reference. *)
Definition refHasId (h : gmap Ref TClaimDetails.t) (id : string) (r : Ref) : bool :=
  match h !! r with
  | Some item => String.eqb (TClaimDetails.id item) id
  | None => false
  end.

(** [findIndex] returns a position of the array it searched, so the slot
    read next is always there; the last branch is never taken. *)
Definition onUpdateIncentive (id : string) (isSelected : bool) (st : Store) : Store :=
  let newClaimableIncentive := refs st in
  match JsArray.findIndex (refHasId (heap st) id) newClaimableIncentive with
  | None => st
  | Some index =>
      match newClaimableIncentive !! index with
      | Some r =>
          mkStore (alter (TClaimDetails.set_isSelected isSelected) r (heap st))
                  newClaimableIncentive
      | None => st
      end
  end.

(** The same update on a list of record values, with no sharing. *)
Fixpoint updateFirst (id : string) (isSelected : bool) (l : list TClaimDetails.t)
    : list TClaimDetails.t :=
  match l with
  | [] => []
  | item :: rest =>
      if String.eqb (TClaimDetails.id item) id
      then TClaimDetails.set_isSelected isSelected item :: rest
      else item :: updateFirst id isSelected rest
  end.

End ClaimView.

(** ** The [ClaimConfirmationModal] component *)

Module ClaimConfirmationModal.

Definition hasSelected (claimableIncentive : list TClaimDetails.t) : bool :=
  List.existsb TClaimDetails.isSelected claimableIncentive.

(** [totalToClaim] of the modal: the sum of the selected values. *)
Definition totalToClaim (claimableIncentive : list TClaimDetails.t) : JsNumber.number :=
  fold_left (fun total incentive => JsNumber.add total (TClaimDetails.value incentive))
    (List.filter TClaimDetails.isSelected claimableIncentive) (JsNumber.of_Z 0).

(** The [multicallData] argument [onClaim] builds. *)
Definition multicallData (claimableIncentive : list TClaimDetails.t) : list TMulticall.t :=
  List.map TClaimDetails.multicall
    (List.filter TClaimDetails.isSelected claimableIncentive).

(** The arguments [onClaim] passes to the [multicall] action. *)
Record MulticallArgs : Type := mkMulticallArgs {
  contractAddress : TAddress;
  batch : list TMulticall.t
}.

Definition onClaim (toAddress : option string -> TAddress) (BOOTSTRAP_ADDRESS : option string)
    (claimableIncentive : list TClaimDetails.t) : MulticallArgs :=
  mkMulticallArgs (toAddress BOOTSTRAP_ADDRESS) (multicallData claimableIncentive).

(** The batch as the interface describes it: walk the claimable list in
    order and keep the call of each selected incentive. *)
Fixpoint selectedCalls (claimableIncentive : list TClaimDetails.t) : list TMulticall.t :=
  match claimableIncentive with
  | [] => []
  | incentive :: rest =>
      if TClaimDetails.isSelected incentive
      then TClaimDetails.multicall incentive :: selectedCalls rest
      else selectedCalls rest
  end.

End ClaimConfirmationModal.

(** ** The [YETH] component: the tab shown on mount

    Strings are sequences of 8-bit characters; [router.asPath] is a URL
    path and query, and [toLowerCase] acts on the letters [A]..[Z]: it is
    the JavaScript function on strings of ASCII characters, and the
    statements about it keep to those. *)

Module YETH.

Record Tab : Type := mkTab {
  value : Z;
  label : string;
  slug : string
}.

Definition tabs : list Tab :=
  [ mkTab 0 "Deposit" "deposit";
    mkTab 1 "Withdraw" "withdraw";
    mkTab 2 "Stake/Unstake" "stake-unstake";
    mkTab 3 "Swap" "swap" ].

(** [tabs[0]], the initial value of the [currentTab] state. *)
Definition defaultTab : Tab := mkTab 0 "Deposit" "deposit".

(** [s.split(sep)] for a one-character separator: the pieces between
    the occurrences of [sep], one more than there are occurrences. *)
Fixpoint split (sep : ascii) (s : string) : list string :=
  match s with
  | EmptyString => [EmptyString]
  | String c rest =>
      if Ascii.eqb c sep then EmptyString :: split sep rest
      else
        match split sep rest with
        | piece :: pieces => String c piece :: pieces
        | [] => [String c EmptyString]
        end
  end.

Definition lowerChar (c : ascii) : ascii :=
  let n := nat_of_ascii c in
  if ((65 <=? n) && (n <=? 90))%nat then ascii_of_nat (n + 32) else c.

Fixpoint toLowerCase (s : string) : string :=
  match s with
  | EmptyString => EmptyString
  | String c rest => String (lowerChar c) (toLowerCase rest)
  end.

(** [tabs.findIndex(tab => tab.slug === tabLabel)]; [None] stands for [-1]. *)
Definition findTab (tabLabel : string) : option nat :=
  JsArray.findIndex (fun tab => String.eqb (slug tab) tabLabel) tabs.

(** [action.split('=')[1] ?? ''] *)
Definition actionTypeOf (action : string) : string :=
  match split "=" action !! 1%nat with
  | Some piece => piece
  | None => EmptyString
  end.

(** The mount effect, as a function from the path and the current tab to
    the tab held afterwards.  When the path has no ['?'] the [action] is
    the object [{}], which has no [split], and nothing happens; an empty
    [actionType] is falsy. *)
Definition mountEffect (asPath : string) (currentTab : Tab) : Tab :=
  match split "?" asPath !! 1%nat with
  | None => currentTab
  | Some action =>
      let actionType := actionTypeOf action in
      if String.eqb actionType EmptyString then currentTab
      else
        let tabLabel := toLowerCase actionType in
        match findTab tabLabel with
        | None => currentTab
        | Some tabValue =>
            match tabs !! tabValue with
            | Some tab => tab
            | None => currentTab
            end
        end
  end.

(** The tab displayed once the component has mounted. *)
Definition initialTab (asPath : string) : Tab := mountEffect asPath defaultTab.

(** The text the effect looks up among the slugs, when there is one. *)
Definition queryValue (asPath : string) : option string :=
  match split "?" asPath !! 1%nat with
  | None => None
  | Some action =>
      let actionType := actionTypeOf action in
      if String.eqb actionType EmptyString then None else Some actionType
  end.

End YETH.

(** ** More of the [Claim] component *)

Module ClaimOrder.
Import ClaimView.

(** The same dependencies with another claimed list, and with the votes
    of another voter. *)
Definition withClaimed (claimed : list TClaimedIncentive.t) (deps : Deps) : Deps :=
  mkDeps (totalVotes deps) (Some claimed) (voteData deps) (protocols deps) (address deps).

Definition withVotesUsed (votesUsed : TNormalizedBN) (deps : Deps) : Deps :=
  mkDeps (totalVotes deps) (claimedIncentives deps)
    (TVoteData.mk (TVoteData.winners (voteData deps)) votesUsed)
    (protocols deps) (address deps).

(** The dependencies with the total the [totalVotes] memo computes. *)
Definition withTotalVotes (totalVotes : TNormalizedBN) (deps : Deps) : Deps :=
  mkDeps totalVotes (claimedIncentives deps) (voteData deps) (protocols deps) (address deps).

Section Order.

Variable toAddress : option string -> TAddress.
Variable deps : Deps.

(** The visits whose id is not in the claimed list. *)
Definition unclaimed (claimed : list TClaimedIncentive.t)
    (visits : list (TAddress * TIncentives.t)) : list (TAddress * TIncentives.t) :=
  List.filter (fun visit => negb (isClaimed (idOf toAddress deps (fst visit) (snd visit)) claimed))
    visits.

(** The first visit of each id not yet in [seen], in order. *)
Fixpoint keepFirst (seen : list string) (visits : list (TAddress * TIncentives.t))
    : list (TAddress * TIncentives.t) :=
  match visits with
  | [] => []
  | visit :: rest =>
      let id := idOf toAddress deps (fst visit) (snd visit) in
      if bool_decide (id ∈ seen) then keepFirst seen rest
      else visit :: keepFirst (seen ++ [id]) rest
  end.

End Order.

(** The record of a visit. *)
Definition recordOfVisit (toAddress : option string -> TAddress)
    (toNormalizedBN : Z -> option Z -> TNormalizedBN)
    (encodeFunctionData : string -> list TAddress -> Hex)
    (BOOTSTRAP_ADDRESS : option string)
    (deps : Deps) (visit : TAddress * TIncentives.t) : TClaimDetails.t :=
  ClaimView.recordOf toAddress toNormalizedBN encodeFunctionData BOOTSTRAP_ADDRESS deps
    (fst visit) (snd visit).

(** The sum of a list of bigints. *)
Definition sumZ (l : list Z) : Z := fold_right Z.add 0 l.

End ClaimOrder.

(** ** More of the [ClaimConfirmationModal] component *)

Module ClaimGrouping.

(** The members every object inherits from [Object.prototype]: a lookup
    of one of these names on the fresh [result] object finds the
    inherited member. *)
Definition objectPrototypeKeys : list string :=
  [ "constructor"; "__defineGetter__"; "__defineSetter__"; "hasOwnProperty";
    "__lookupGetter__"; "__lookupSetter__"; "isPrototypeOf"; "propertyIsEnumerable";
    "toString"; "valueOf"; "__proto__"; "toLocaleString" ].

Definition inherited (key : string) : bool := bool_decide (key ∈ objectPrototypeKeys).

(** A computation that completes or throws a [TypeError]. *)
Inductive Try (A : Type) : Type :=
| Done (a : A)
| TypeError.
Arguments Done {A} a.
Arguments TypeError {A}.

(** The body of the [forEach]: an own entry gets the incentive pushed; a
    missing one is created first; an inherited member is truthy, is not
    replaced, and has no [push]. *)
Definition addToGroup (result : gmap string (list TClaimDetails.t))
    (incentive : TClaimDetails.t) : Try (gmap string (list TClaimDetails.t)) :=
  let protocol := TClaimDetails.protocolName incentive in
  match result !! protocol with
  | Some group => Done (<[protocol := group ++ [incentive]]> result)
  | None =>
      if inherited protocol then TypeError
      else Done (<[protocol := [incentive]]> result)
  end.

Fixpoint groupFrom (result : gmap string (list TClaimDetails.t))
    (claimableIncentive : list TClaimDetails.t)
    : Try (gmap string (list TClaimDetails.t)) :=
  match claimableIncentive with
  | [] => Done result
  | incentive :: rest =>
      match addToGroup result incentive with
      | Done result' => groupFrom result' rest
      | TypeError => TypeError
      end
  end.

Definition claimableIncentiveByProtocol (claimableIncentive : list TClaimDetails.t)
    : Try (gmap string (list TClaimDetails.t)) :=
  groupFrom ∅ claimableIncentive.

(** The incentives of one protocol, in the order of the list. *)
Definition ofProtocol (protocol : string) (claimableIncentive : list TClaimDetails.t)
    : list TClaimDetails.t :=
  List.filter (fun incentive => String.eqb (TClaimDetails.protocolName incentive) protocol)
    claimableIncentive.

(** What a lookup of [protocol] finds once [seen] has been grouped. *)
Definition groupOf (protocol : string) (seen : list TClaimDetails.t)
    : option (list TClaimDetails.t) :=
  match ofProtocol protocol seen with
  | [] => None
  | group => Some group
  end.

End ClaimGrouping.

(** ** More of the [YETH] component *)

Module YETHView.
Import YETH.

(** Whether the character occurs in the string. *)
Fixpoint contains (c : ascii) (s : string) : bool :=
  match s with
  | EmptyString => false
  | String c' rest => Ascii.eqb c' c || contains c rest
  end.

(** The pieces put back together, [pieces.join(sep)]. *)
Definition join (sep : ascii) (pieces : list string) : string :=
  String.concat (String sep EmptyString) pieces.

Inductive View : Type := ViewDeposit | ViewWithdraw | ViewStake | ViewSwap.

Definition renderTab (currentTab : Tab) : View :=
  match value currentTab with
  | 0 => ViewDeposit
  | 1 => ViewWithdraw
  | 2 => ViewStake
  | 3 => ViewSwap
  | _ => ViewDeposit
  end.

(** The [onChange] of the listbox: [tabs.find(tab => tab.value === Number(value))]. *)
Definition onListboxChange (v : Z) (currentTab : Tab) : Tab :=
  match List.find (fun tab => value tab =? v) tabs with
  | Some newTab => newTab
  | None => currentTab
  end.

(** What can change [currentTab]: the mount effect, a click on the
    button of the tab at a position of [tabs], a choice in the listbox. *)
Inductive Event : Type :=
| Mount (asPath : string)
| Click (position : nat)
| ListboxChange (v : Z).

Definition step (currentTab : Tab) (event : Event) : Tab :=
  match event with
  | Mount asPath => mountEffect asPath currentTab
  | Click position =>
      match tabs !! position with
      | Some tab => tab
      | None => currentTab
      end
  | ListboxChange v => onListboxChange v currentTab
  end.

Definition run (events : list Event) : Tab := fold_left step events defaultTab.

(** *** The pool view *)

(** The animations [triggerPoolView] starts, one constructor for each
    call with its keyframes. *)
Inductive Animation : Type :=
| TabsAway | TitleUp | CompositionAway | PoolOpen
| TabsBack | TitleBack | CompositionBack | PoolClosed.

Record PoolState : Type := mkPoolState {
  shouldRenderPool : bool;
  lpPoolTheme : bool;
  animations : list Animation
}.

Definition initialPoolState : PoolState := mkPoolState false false [].

Definition triggerPoolView (direction : bool) (st : PoolState) : PoolState :=
  if Bool.eqb direction (shouldRenderPool st) then st
  else if direction then
    mkPoolState true true
      (animations st ++ [TabsAway; TitleUp; CompositionAway; PoolOpen])
  else
    mkPoolState false false
      (animations st ++ [TabsBack; TitleBack; CompositionBack; PoolClosed]).

(** The pool view after a sequence of triggers. *)
Definition afterTriggers (directions : list bool) (st : PoolState) : PoolState :=
  fold_left (fun st direction => triggerPoolView direction st) directions st.

(** The unmount effect takes the theme class off the body. *)
Definition unmountEffect (st : PoolState) : PoolState :=
  mkPoolState (shouldRenderPool st) false (animations st).

End YETHView.

(** ** The query parameters of a path

    The parameters as a reader of URLs gives them, to compare the mount
    effect with: the query runs from the first ['?'] to a ['#'], its
    parameters stand between ['&'], and the first ['='] of a parameter
    parts its name from its value. *)

Module UrlQuery.








End UrlQuery.

(** ** The [DepositHeader] component *)

Module DepositHeader.

Record THistoryItem : Type := mkHistoryItem {
  stTokenAmount : Z;
  votedAssetDecimals : Z
}.

Section Externals.

Variable toNormalizedBN : Z -> Z -> TNormalizedBN.

(** [history?.reduce(...) || 0]: an absent history gives [undefined],
    which is falsy. *)
Definition userTotalDeposited (history : option (list THistoryItem)) : JsNumber.number :=
  match history with
  | None => JsNumber.of_Z 0
  | Some items =>
      JsNumber.or_zero
        (fold_left
           (fun acc current =>
              JsNumber.add acc
                (normalized (toNormalizedBN (stTokenAmount current) (votedAssetDecimals current))))
           items (JsNumber.of_Z 0))
  end.

End Externals.

End DepositHeader.

(** ** A worked scenario

    Stand-ins for the imported functions and one set of hook results:
    three winners, of which one has no incentive history; a repeated
    incentive; and one incentive the user already claimed. *)

Module Demo.

Definition toAddress (a : option string) : TAddress :=
  match a with
  | Some s => s
  | None => "0x0"
  end.

Definition toNormalizedBN (v : Z) (d : option Z) : TNormalizedBN :=
  mkNormalizedBN v
    (JsNumber.div (JsNumber.of_Z v) (JsNumber.of_Z (10 ^ (match d with Some n => n | None => 18 end)))).

Definition encodeFunctionData (functionName : string) (args : list TAddress) : Hex :=
  String.concat "," (functionName :: args).

Definition BOOTSTRAP_ADDRESS : option string := Some "0xB00".

Definition tokenA : TTokenInfo.t := TTokenInfo.mk "0xA" "TKA" 18.
Definition tokenC : TTokenInfo.t := TTokenInfo.mk "0xC" "TKC" 6.

Definition incentiveA : TIncentives.t :=
  TIncentives.mk "Protocol One" "0xA" (JsNumber.of_Z 1000) 4000 (Some tokenA).
Definition incentiveB : TIncentives.t :=
  TIncentives.mk "Protocol One" "0xB" (JsNumber.of_Z 200) 8 None.
Definition incentiveA' : TIncentives.t :=
  TIncentives.mk "Protocol One" "0xA" (JsNumber.of_Z 50) 10 (Some tokenA).
Definition incentiveC : TIncentives.t :=
  TIncentives.mk "Protocol Two" "0xC" (JsNumber.of_Z 400) 100 (Some tokenC).

Definition history : gmap string TGroupIncentive.t :=
  <["0xP1" := TGroupIncentive.mk [incentiveA; incentiveB; incentiveA']]>
  (<["0xP2" := TGroupIncentive.mk [incentiveC]]> ∅).

Definition deps : ClaimView.Deps :=
  ClaimView.mkDeps
    (mkNormalizedBN (100 * 10 ^ 18) (JsNumber.of_Z 100))
    (Some [TClaimedIncentive.mk "0xP1-0xB-0xU5e7"])
    (TVoteData.mk ["0xP1"; "0xP9"; "0xP2"] (mkNormalizedBN (25 * 10 ^ 18) (JsNumber.of_Z 25)))
    history
    (Some "0xU5e7").

Definition claimEffect : ClaimView.Deps -> ClaimView.Outcome :=
  ClaimView.claimEffect toAddress toNormalizedBN encodeFunctionData BOOTSTRAP_ADDRESS.

Definition recordOf : TAddress -> TIncentives.t -> TClaimDetails.t :=
  ClaimView.recordOf toAddress toNormalizedBN encodeFunctionData BOOTSTRAP_ADDRESS deps.

(** What the effect leaves in the two state cells. *)
Definition claimData : list TClaimDetails.t :=
  [recordOf "0xP1" incentiveA; recordOf "0xP2" incentiveC].

Definition total : JsNumber.number := JsNumber.of_Z 400.

(** One vote out of three, raw and normalized figures in step, and
    nothing claimed yet. *)
Definition thirds : ClaimView.Deps :=
  ClaimView.mkDeps
    (mkNormalizedBN (3 * 10 ^ 18) (JsNumber.of_Z 3))
    (Some [])
    (TVoteData.mk ["0xP1"] (mkNormalizedBN (1 * 10 ^ 18) (JsNumber.of_Z 1)))
    history
    (Some "0xU5e7").

End Demo.

(** * Properties *)

(** ** JavaScript numbers *)

Module JsNumberFacts.
Import JsNumber.

Lemma or_zero_zero (a : number) : is_zero a = true -> or_zero a = of_Z 0.
Proof. destruct a; simpl; intros H; try discriminate; reflexivity. Qed.

(** [a || 0] is [a] unless [a] is [NaN] or [-0]. *)
Lemma or_zero_id (a : number) :
  a <> S754_nan -> a <> S754_zero true -> or_zero a = a.
Proof.
  destruct a as [[|]| | |]; simpl; intros Hnan Hneg; try reflexivity; congruence.
Qed.

(** A finite value times zero, over a positive total, is a zero. *)
Lemma mul_zero_div_pos (v u t : number) :
  is_finite v = true -> is_zero u = true -> lt (of_Z 0) t = true ->
  is_zero (div (mul v u) t) = true.
Proof.
  destruct u as [su| | |]; simpl; intros Hv Hu Ht; try discriminate.
  destruct v as [sv| | |sv mv ev]; simpl in Hv; try discriminate;
    destruct t as [st|st| |st mt et]; try discriminate; try reflexivity;
    destruct st; try discriminate; reflexivity.
Qed.

(** Every zero is [=== 0]. *)
Lemma is_zero_strict_eq (a : number) : is_zero a = true -> strict_eq a (of_Z 0) = true.
Proof. destruct a; simpl; intros H; try discriminate; reflexivity. Qed.

End JsNumberFacts.

(** ** Arrays *)

Module JsArrayFacts.
Import JsArray.

Lemma findIndex_Some {A : Type} (pred : A -> bool) (l : list A) (index : nat) :
  findIndex pred l = Some index ->
  exists x, l !! index = Some x /\ pred x = true /\
            forall j y, (j < index)%nat -> l !! j = Some y -> pred y = false.
Proof.
  revert index. induction l as [|a l IH]; intros index; simpl; [discriminate |].
  destruct (pred a) eqn:Ha.
  - intros [= <-]. exists a. repeat split; auto. intros j y Hj. lia.
  - destruct (findIndex pred l) as [k|] eqn:Hk; [| discriminate].
    intros [= <-]. destruct (IH k eq_refl) as (x & Hx & Hpx & Hbefore).
    exists x. repeat split; auto.
    intros [|j] y Hj Hy; simpl in Hy.
    + injection Hy as <-. exact Ha.
    + apply (Hbefore j y); [lia | exact Hy].
Qed.

Lemma findIndex_None {A : Type} (pred : A -> bool) (l : list A) :
  findIndex pred l = None <-> forall x, x ∈ l -> pred x = false.
Proof.
  induction l as [|a l IH]; simpl.
  - split; [intros _ x Hx; inversion Hx | reflexivity].
  - destruct (pred a) eqn:Ha.
    + split; [discriminate |]. intros H. rewrite (H a) in Ha by left. discriminate.
    + destruct (findIndex pred l) as [k|]; simpl.
      * split; [discriminate |]. intros H.
        assert (Hk : Some k = None) by (apply IH; intros x Hx; apply H; right; exact Hx).
        discriminate.
      * split; [| reflexivity]. intros _ x Hx.
        apply elem_of_cons in Hx as [->|Hx]; [exact Ha |].
        apply IH; [reflexivity | exact Hx].
Qed.

Lemma findIndex_fmap {A B : Type} (f : A -> B) (pred : B -> bool) (l : list A) :
  findIndex pred (f <$> l) = findIndex (fun x => pred (f x)) l.
Proof.
  induction l as [|a l IH]; [reflexivity |].
  rewrite fmap_cons. cbn [findIndex].
  destruct (pred (f a)); [reflexivity |]. rewrite IH. reflexivity.
Qed.

Lemma findIndex_first {A : Type} (pred : A -> bool) (l : list A) (index : nat) (x : A) :
  l !! index = Some x -> pred x = true ->
  (forall j y, (j < index)%nat -> l !! j = Some y -> pred y = false) ->
  findIndex pred l = Some index.
Proof.
  revert index. induction l as [|a l IH]; intros [|index] Hx Hp Hbefore;
    simpl in *; try discriminate.
  - injection Hx as ->. rewrite Hp. reflexivity.
  - rewrite (Hbefore 0%nat a) by (lia || reflexivity).
    rewrite (IH index Hx Hp); [reflexivity |].
    intros j y Hj Hy. apply (Hbefore (S j) y); [lia | exact Hy].
Qed.

End JsArrayFacts.

(** ** The aggregation of claimable incentives *)

Module ClaimFacts.
Import ClaimView.

Lemma BigInt_div_nonzero (a b : Z) : b <> 0 -> BigInt.div a b = Ok (Z.quot a b).
Proof.
  intros Hb. unfold BigInt.div. destruct (Z.eqb_spec b 0); [contradiction | reflexivity].
Qed.

Lemma BigInt_div_zero (a : Z) : BigInt.div a 0 = RangeError.
Proof. reflexivity. Qed.

Lemma hasId_true (id : string) (claimData : list TClaimDetails.t) :
  hasId id claimData = true <-> id ∈ TClaimDetails.id <$> claimData.
Proof.
  unfold hasId. induction claimData as [|r claimData IH]; simpl.
  - split; [discriminate | intros H; inversion H].
  - destruct (String.eqb_spec (TClaimDetails.id r) id) as [Heq|Hne].
    + split; [intros _; rewrite Heq; left | reflexivity].
    + rewrite IH. split; [intros H; right; exact H |].
      intros H. apply elem_of_cons in H as [H|H]; [congruence | exact H].
Qed.

Lemma hasId_false (id : string) (claimData : list TClaimDetails.t) :
  hasId id claimData = false <-> id ∉ TClaimDetails.id <$> claimData.
Proof.
  rewrite <- hasId_true. destruct (hasId id claimData); split; congruence.
Qed.

Lemma isClaimed_true (id : string) (claimed : list TClaimedIncentive.t) :
  isClaimed id claimed = true <-> id ∈ TClaimedIncentive.id <$> claimed.
Proof.
  unfold isClaimed. induction claimed as [|c claimed IH]; simpl.
  - split; [discriminate | intros H; inversion H].
  - destruct (String.eqb_spec (TClaimedIncentive.id c) id) as [Heq|Hne].
    + split; [intros _; rewrite Heq; left | reflexivity].
    + rewrite IH. split; [intros H; right; exact H |].
      intros H. apply elem_of_cons in H as [H|H]; [congruence | exact H].
Qed.

(** Votes are unsigned on chain; their sum is then no less than zero. *)
Lemma sumVotes_nonneg (whitelistedLST : list TWhitelistedLST.t) :
  Forall (fun item => 0 <= votesOrZero (TWhitelistedLST.votes item)) whitelistedLST ->
  0 <= sumVotes whitelistedLST.
Proof.
  intros Hall. unfold sumVotes.
  assert (Hfrom : forall start, 0 <= start ->
            0 <= fold_left
                   (fun sum item => sum + votesOrZero (TWhitelistedLST.votes item))
                   whitelistedLST start).
  { induction Hall as [|item rest Hitem _ IH]; intros start Hstart; simpl.
    - exact Hstart.
    - apply IH. lia. }
  apply Hfrom. lia.
Qed.

Section Loops.

Variable toAddress : option string -> TAddress.
Variable toNormalizedBN : Z -> option Z -> TNormalizedBN.
Variable encodeFunctionData : string -> list TAddress -> Hex.
Variable BOOTSTRAP_ADDRESS : option string.
Variable deps : Deps.
Variable claimed : list TClaimedIncentive.t.

Local Abbreviation idOf := (ClaimView.idOf toAddress deps).
Local Abbreviation recordOf :=
  (ClaimView.recordOf toAddress toNormalizedBN encodeFunctionData BOOTSTRAP_ADDRESS deps).
Local Abbreviation processIncentive :=
  (ClaimView.processIncentive toAddress toNormalizedBN encodeFunctionData
     BOOTSTRAP_ADDRESS deps claimed).
Local Abbreviation forIncentives :=
  (ClaimView.forIncentives toAddress toNormalizedBN encodeFunctionData
     BOOTSTRAP_ADDRESS deps claimed).
Local Abbreviation forWinners :=
  (ClaimView.forWinners toAddress toNormalizedBN encodeFunctionData
     BOOTSTRAP_ADDRESS deps claimed).
Local Abbreviation forProcessed :=
  (ClaimView.forProcessed toAddress toNormalizedBN encodeFunctionData
     BOOTSTRAP_ADDRESS deps claimed).
Local Abbreviation ids := (fmap (M := list) TClaimDetails.id).

(** The nested loops visit exactly the list [processed]. *)
Lemma forIncentives_forProcessed protocol incentives acc :
  forIncentives protocol incentives acc
  = forProcessed (List.map (pair protocol) incentives) acc.
Proof.
  revert acc. induction incentives as [|i incentives IH]; intros acc; simpl.
  - reflexivity.
  - destruct (processIncentive protocol acc i) as [acc'|]; simpl; [apply IH | reflexivity].
Qed.

Lemma forProcessed_cons p i visits acc :
  forProcessed ((p, i) :: visits) acc
  = bind (processIncentive p acc i) (forProcessed visits).
Proof. reflexivity. Qed.

Lemma forProcessed_app visits1 visits2 acc :
  forProcessed (visits1 ++ visits2) acc
  = bind (forProcessed visits1 acc) (forProcessed visits2).
Proof.
  revert acc. induction visits1 as [|[p i] visits1 IH]; intros acc; simpl.
  - reflexivity.
  - destruct (processIncentive p acc i) as [acc'|]; simpl; [apply IH | reflexivity].
Qed.

Lemma forWinners_forProcessed winners acc :
  forWinners winners acc = forProcessed (processed deps winners) acc.
Proof.
  revert acc. induction winners as [|p winners IH]; intros acc; simpl.
  - reflexivity.
  - rewrite forProcessed_app.
    destruct (protocols deps !! p) as [g|]; simpl.
    + rewrite forIncentives_forProcessed.
      destruct (forProcessed _ acc) as [acc'|]; simpl; [apply IH | reflexivity].
    + apply IH.
Qed.

(** Without the guard the first visit already throws. *)
Lemma processIncentive_zero_total protocol acc incentive :
  raw (totalVotes deps) = 0 -> processIncentive protocol acc incentive = RangeError.
Proof.
  intros H0. destruct acc as [claimData total].
  unfold ClaimView.processIncentive, amountOfThis, rawAmountOfThis.
  rewrite H0. reflexivity.
Qed.

Section Guarded.

(** The effect enters the loops only past its guard. *)
Hypothesis guard : raw (totalVotes deps) <> 0.

Lemma rawAmountOfThis_guarded incentive :
  rawAmountOfThis deps incentive
  = Ok (Z.quot (TIncentives.amount incentive * raw (TVoteData.votesUsed (voteData deps)))
          (raw (totalVotes deps))).
Proof. unfold rawAmountOfThis. apply BigInt_div_nonzero, guard. Qed.

(** The three ways a visit ends. *)
Lemma processIncentive_guarded protocol claimData total incentive :
  processIncentive protocol (claimData, total) incentive
  = Ok (if hasId (idOf protocol incentive) claimData then (claimData, total)
        else if isClaimed (idOf protocol incentive) claimed
             then (claimData, JsNumber.add total (valueOfThis deps incentive))
             else (claimData ++ [recordOf protocol incentive],
                   JsNumber.add total (valueOfThis deps incentive))).
Proof.
  unfold ClaimView.processIncentive, amountOfThis.
  rewrite rawAmountOfThis_guarded. simpl.
  destruct (hasId _ claimData); [reflexivity |].
  destruct (isClaimed _ claimed); reflexivity.
Qed.

Lemma forProcessed_total visits acc : exists acc', forProcessed visits acc = Ok acc'.
Proof.
  revert acc. induction visits as [|[p i] visits IH]; intros [claimData total].
  - simpl. eauto.
  - rewrite forProcessed_cons, processIncentive_guarded. simpl. apply IH.
Qed.

(** The claimable list only grows, at its end. *)
Lemma forProcessed_prefix visits claimData total claimData' total' :
  forProcessed visits (claimData, total) = Ok (claimData', total') ->
  claimData `prefix_of` claimData'.
Proof.
  revert claimData total. induction visits as [|[p i] visits IH]; intros claimData total.
  - simpl. intros [= <- <-]. reflexivity.
  - rewrite forProcessed_cons, processIncentive_guarded. simpl.
    destruct (hasId _ claimData); [apply IH |].
    destruct (isClaimed _ claimed); [apply IH |].
    intros H. apply IH in H. etrans; [apply prefix_app_r; reflexivity | exact H].
Qed.

(** Every record comes from a visit whose id was neither present nor
    claimed. *)
Lemma forProcessed_sources visits claimData total claimData' total' :
  forProcessed visits (claimData, total) = Ok (claimData', total') ->
  forall r, r ∈ claimData' ->
    r ∈ claimData \/
    exists p i, (p, i) ∈ visits /\ r = recordOf p i /\
                isClaimed (idOf p i) claimed = false.
Proof.
  revert claimData total. induction visits as [|[p i] visits IH]; intros claimData total.
  - simpl. intros [= <- <-] r Hr. left. exact Hr.
  - rewrite forProcessed_cons, processIncentive_guarded. simpl.
    assert (Hlift : forall cd t,
      forProcessed visits (cd, t) = Ok (claimData', total') ->
      (forall r, r ∈ cd -> r ∈ claimData \/
         exists p0 i0, (p0, i0) ∈ (p, i) :: visits /\ r = recordOf p0 i0 /\
                       isClaimed (idOf p0 i0) claimed = false) ->
      forall r, r ∈ claimData' -> r ∈ claimData \/
         exists p0 i0, (p0, i0) ∈ (p, i) :: visits /\ r = recordOf p0 i0 /\
                       isClaimed (idOf p0 i0) claimed = false).
    { intros cd t Hrun Hcd r Hr.
      destruct (IH _ _ Hrun r Hr) as [Hin|(p0 & i0 & Hin & Heq & Hcl)].
      - apply Hcd, Hin.
      - right. exists p0, i0. split; [right; exact Hin | auto]. }
    destruct (hasId _ claimData) eqn:Hhas.
    { intros Hrun. eapply Hlift; [exact Hrun | auto]. }
    destruct (isClaimed _ claimed) eqn:Hcl.
    { intros Hrun. eapply Hlift; [exact Hrun | auto]. }
    intros Hrun. eapply Hlift; [exact Hrun |].
    intros r Hr. apply elem_of_app in Hr as [Hr|Hr]; [left; exact Hr |].
    apply list_elem_of_singleton in Hr. right. exists p, i.
    split; [left | auto].
Qed.

Lemma id_recordOf p i : TClaimDetails.id (recordOf p i) = idOf p i.
Proof. reflexivity. Qed.

(** The ids of the claimable list stay pairwise distinct. *)
Lemma forProcessed_NoDup visits claimData total claimData' total' :
  NoDup (ids claimData) ->
  forProcessed visits (claimData, total) = Ok (claimData', total') ->
  NoDup (ids claimData').
Proof.
  revert claimData total. induction visits as [|[p i] visits IH]; intros claimData total Hnd.
  - simpl. intros [= <- <-]. exact Hnd.
  - rewrite forProcessed_cons, processIncentive_guarded. simpl.
    destruct (hasId _ claimData) eqn:Hhas; [apply IH, Hnd |].
    destruct (isClaimed _ claimed); [apply IH, Hnd |].
    apply IH. rewrite fmap_app. apply NoDup_app. split; [exact Hnd |].
    split; [| apply NoDup_singleton].
    intros x Hx Hx'. apply list_elem_of_singleton in Hx'. subst x.
    apply hasId_false in Hhas. apply Hhas. exact Hx.
Qed.

(** No record carries an id of the claimed list. *)
Lemma forProcessed_unclaimed visits claimData total claimData' total' :
  (forall r, r ∈ claimData -> isClaimed (TClaimDetails.id r) claimed = false) ->
  forProcessed visits (claimData, total) = Ok (claimData', total') ->
  forall r, r ∈ claimData' -> isClaimed (TClaimDetails.id r) claimed = false.
Proof.
  intros Hcd Hrun r Hr.
  destruct (forProcessed_sources _ _ _ _ _ Hrun r Hr) as [Hin|(p & i & _ & -> & Hcl)].
  - apply Hcd, Hin.
  - exact Hcl.
Qed.

(** Every visited id that is not claimed ends up in the claimable list. *)
Lemma forProcessed_complete visits claimData total claimData' total' :
  forProcessed visits (claimData, total) = Ok (claimData', total') ->
  forall p i, (p, i) ∈ visits -> isClaimed (idOf p i) claimed = false ->
    idOf p i ∈ ids claimData'.
Proof.
  revert claimData total. induction visits as [|[p0 i0] visits IH]; intros claimData total.
  - intros _ p i Hin. inversion Hin.
  - rewrite forProcessed_cons, processIncentive_guarded. simpl.
    intros Hrun p i Hin Hcl. apply elem_of_cons in Hin as [[= -> ->]|Hin].
    + rewrite Hcl in Hrun.
      destruct (hasId _ claimData) eqn:Hhas.
      * apply hasId_true in Hhas. apply forProcessed_prefix in Hrun.
        destruct Hrun as [k ->]. rewrite fmap_app. apply elem_of_app. left. exact Hhas.
      * apply forProcessed_prefix in Hrun. destruct Hrun as [k ->].
        rewrite !fmap_app. apply elem_of_app. left. apply elem_of_app. right.
        simpl. left.
    + destruct (hasId _ claimData); [eapply IH; eauto |].
      destruct (isClaimed (idOf p0 i0) claimed); eapply IH; eauto.
Qed.

End Guarded.

End Loops.

Section Effect.

Variable toAddress : option string -> TAddress.
Variable toNormalizedBN : Z -> option Z -> TNormalizedBN.
Variable encodeFunctionData : string -> list TAddress -> Hex.
Variable BOOTSTRAP_ADDRESS : option string.

Local Abbreviation claimEffect :=
  (ClaimView.claimEffect toAddress toNormalizedBN encodeFunctionData BOOTSTRAP_ADDRESS).
Local Abbreviation forProcessed :=
  (ClaimView.forProcessed toAddress toNormalizedBN encodeFunctionData BOOTSTRAP_ADDRESS).

(** An update happens past both guards, and its two values are what the
    loops leave in the accumulators. *)
Lemma claimEffect_Updated deps claimData total :
  claimEffect deps = Updated claimData total ->
  raw (totalVotes deps) <> 0 /\
  exists claimed,
    claimedIncentives deps = Some claimed /\
    forProcessed deps claimed (processed deps (TVoteData.winners (voteData deps)))
      ([], JsNumber.of_Z 0) = Ok (claimData, total).
Proof.
  unfold ClaimView.claimEffect.
  destruct (Z.eqb_spec (raw (totalVotes deps)) 0) as [|Hne]; [discriminate |].
  destruct (claimedIncentives deps) as [claimed|]; [| discriminate].
  rewrite forWinners_forProcessed.
  destruct (forProcessed deps claimed _ _) as [[cd t]|] eqn:Hrun; [| discriminate].
  intros [= <- <-]. split; [exact Hne |]. exists claimed. split; [reflexivity | exact Hrun].
Qed.

(** No run of the effect ends in an exception. *)
Lemma claimEffect_not_Thrown deps : claimEffect deps <> Thrown.
Proof.
  unfold ClaimView.claimEffect.
  destruct (Z.eqb_spec (raw (totalVotes deps)) 0) as [|Hne]; [discriminate |].
  destruct (claimedIncentives deps) as [claimed|]; [| discriminate].
  rewrite forWinners_forProcessed.
  destruct (forProcessed_total toAddress toNormalizedBN encodeFunctionData
              BOOTSTRAP_ADDRESS deps claimed Hne
              (processed deps (TVoteData.winners (voteData deps)))
              ([], JsNumber.of_Z 0)) as [[cd t] ->].
  discriminate.
Qed.

End Effect.

End ClaimFacts.

(** ** The claims about the aggregation *)

Module ClaimSpec.
Import ClaimView ClaimFacts.

Lemma demo_run : Demo.claimEffect Demo.deps = Updated Demo.claimData Demo.total.
Proof. vm_compute. reflexivity. Qed.

Lemma filter_all_selected (l : list TClaimDetails.t) :
  Forall (fun r => TClaimDetails.isSelected r = true) l ->
  List.filter TClaimDetails.isSelected l = l.
Proof.
  induction 1 as [|r l Hr _ IH]; simpl; [reflexivity |].
  rewrite Hr, IH. reflexivity.
Qed.

Section Claims.

Variable toAddress : option string -> TAddress.
Variable toNormalizedBN : Z -> option Z -> TNormalizedBN.
Variable encodeFunctionData : string -> list TAddress -> Hex.
Variable BOOTSTRAP_ADDRESS : option string.

Local Abbreviation claimEffect :=
  (ClaimView.claimEffect toAddress toNormalizedBN encodeFunctionData BOOTSTRAP_ADDRESS).
Local Abbreviation forProcessed :=
  (ClaimView.forProcessed toAddress toNormalizedBN encodeFunctionData BOOTSTRAP_ADDRESS).
Local Abbreviation forWinners :=
  (ClaimView.forWinners toAddress toNormalizedBN encodeFunctionData BOOTSTRAP_ADDRESS).
Local Abbreviation processIncentive :=
  (ClaimView.processIncentive toAddress toNormalizedBN encodeFunctionData BOOTSTRAP_ADDRESS).
Local Abbreviation recordOf :=
  (ClaimView.recordOf toAddress toNormalizedBN encodeFunctionData BOOTSTRAP_ADDRESS).
Local Abbreviation idOf := (ClaimView.idOf toAddress).

(** Every record of an update is the record of a visited incentive of a
    winner that has an entry in the history, and its id is not claimed. *)
Lemma Updated_sources deps claimData total :
  claimEffect deps = Updated claimData total ->
  forall r, r ∈ claimData ->
    exists p g i,
      p ∈ TVoteData.winners (voteData deps) /\
      protocols deps !! p = Some g /\
      i ∈ TGroupIncentive.incentives g /\
      r = recordOf deps p i.
Proof.
  intros Hup r Hr. apply claimEffect_Updated in Hup as (Hne & claimed & _ & Hrun).
  destruct (forProcessed_sources _ _ _ _ _ _ Hne _ _ _ _ _ Hrun r Hr)
    as [Hnil|(p & i & Hin & -> & _)]; [inversion Hnil |].
  apply list_elem_of_In, in_flat_map in Hin as (p' & Hp' & Hin).
  destruct (protocols deps !! p') as [g|] eqn:Hg; [| inversion Hin].
  apply in_map_iff in Hin as (i' & [= <- <-] & Hi').
  exists p', g, i'. repeat split; auto; apply list_elem_of_In; assumption.
Qed.

(** C4: whatever the hooks return, an update of the claimable list holds
    no composite id twice. *)
Theorem claimable_ids_NoDup deps claimData total :
  claimEffect deps = Updated claimData total ->
  NoDup (TClaimDetails.id <$> claimData).
Proof.
  intros Hup. apply claimEffect_Updated in Hup as (Hne & claimed & _ & Hrun).
  eapply forProcessed_NoDup; [exact Hne | | exact Hrun].
  apply NoDup_nil_2.
Qed.

(** C9: every record of a freshly derived claimable list is selected, so
    the modal's total to claim is the sum of all the claimable values. *)
Theorem fresh_claimable_all_selected deps claimData total :
  claimEffect deps = Updated claimData total ->
  Forall (fun r => TClaimDetails.isSelected r = true) claimData /\
  ClaimConfirmationModal.totalToClaim claimData = ClaimView.totalToClaim claimData.
Proof.
  intros Hup.
  assert (Hall : Forall (fun r => TClaimDetails.isSelected r = true) claimData).
  { apply Forall_forall. intros r Hr.
    destruct (Updated_sources _ _ _ Hup r Hr) as (p & g & i & _ & _ & _ & ->).
    reflexivity. }
  split; [exact Hall |].
  unfold ClaimConfirmationModal.totalToClaim, ClaimView.totalToClaim.
  rewrite filter_all_selected by exact Hall. reflexivity.
Qed.

(** C5: the effect never throws the [RangeError] of a division by [0n]:
    with [totalVotes.raw === 0n] it returns before the loops and leaves
    the state as it is, and an update is reached only with a non-zero
    total, where every bigint division of the loops yields its quotient;
    the divisor of the number division is then not zero either, as long
    as the normalized figure is zero for a zero raw total only. *)
Theorem claimEffect_no_division_by_zero deps :
  claimEffect deps <> Thrown /\
  (raw (totalVotes deps) = 0 ->
   claimEffect deps = Returned /\
   forall st, applyOutcome (claimEffect deps) st = st) /\
  (forall claimData total, claimEffect deps = Updated claimData total ->
     raw (totalVotes deps) <> 0 /\
     (0 <= raw (totalVotes deps) -> 0 < raw (totalVotes deps)) /\
     (forall p i, (p, i) ∈ processed deps (TVoteData.winners (voteData deps)) ->
        rawAmountOfThis deps i
        = Ok (Z.quot (TIncentives.amount i * raw (TVoteData.votesUsed (voteData deps)))
                (raw (totalVotes deps)))) /\
     ((JsNumber.is_zero (normalized (totalVotes deps)) = true ->
       raw (totalVotes deps) = 0) ->
      JsNumber.is_zero (JsNumber.Number (normalized (totalVotes deps))) = false)).
Proof.
  split; [apply claimEffect_not_Thrown |]. split.
  - intros H0. unfold ClaimView.claimEffect. rewrite H0. split; reflexivity.
  - intros claimData total Hup. apply claimEffect_Updated in Hup as (Hne & _).
    split; [exact Hne |]. split; [lia |]. split.
    + intros p i _. apply rawAmountOfThis_guarded, Hne.
    + intros Hlink. unfold JsNumber.Number.
      destruct (JsNumber.is_zero (normalized (totalVotes deps))); [| reflexivity].
      exfalso. apply Hne, Hlink. reflexivity.
Qed.

(** C1: the claimable share of an incentive is
    [incentive.value * userVotes / totalVotes] in the arithmetic of JS
    numbers, where [userVotes] is [votesUsed.normalized || 0] (which is
    [votesUsed.normalized] itself unless that is [NaN] or [-0]); it is
    [=== 0] when the user's votes are zero, the value is finite and the
    total is positive; every record of an update carries the share of
    its incentive; and a value of 1000 with 25 votes out of 100 gives 250. *)
Theorem claimable_value_pro_rata deps claimData total :
  claimEffect deps = Updated claimData total ->
  (forall i,
     valueOfThis deps i
     = JsNumber.div
         (JsNumber.mul (TIncentives.value i)
            (JsNumber.or_zero (normalized (TVoteData.votesUsed (voteData deps)))))
         (normalized (totalVotes deps)) /\
     (normalized (TVoteData.votesUsed (voteData deps)) <> S754_nan ->
      normalized (TVoteData.votesUsed (voteData deps)) <> S754_zero true ->
      valueOfThis deps i
      = JsNumber.div
          (JsNumber.mul (TIncentives.value i)
             (normalized (TVoteData.votesUsed (voteData deps))))
          (normalized (totalVotes deps))) /\
     (JsNumber.is_zero (normalized (TVoteData.votesUsed (voteData deps))) = true ->
      JsNumber.is_finite (TIncentives.value i) = true ->
      JsNumber.lt (JsNumber.of_Z 0) (normalized (totalVotes deps)) = true ->
      JsNumber.strict_eq (valueOfThis deps i) (JsNumber.of_Z 0) = true)) /\
  (forall r, r ∈ claimData ->
     exists p g i,
       p ∈ TVoteData.winners (voteData deps) /\
       protocols deps !! p = Some g /\
       i ∈ TGroupIncentive.incentives g /\
       TClaimDetails.id r = idOf deps p i /\
       TClaimDetails.value r = valueOfThis deps i) /\
  (normalized (totalVotes deps) = JsNumber.of_Z 100 ->
   normalized (TVoteData.votesUsed (voteData deps)) = JsNumber.of_Z 25 ->
   forall i, TIncentives.value i = JsNumber.of_Z 1000 ->
     valueOfThis deps i = JsNumber.of_Z 250).
Proof.
  intros Hup. split; [| split].
  - intros i. split; [reflexivity |]. split.
    + intros Hnan Hneg. unfold valueOfThis, JsNumber.Number.
      rewrite JsNumberFacts.or_zero_id by assumption. reflexivity.
    + intros Hz Hfin Hpos. apply JsNumberFacts.is_zero_strict_eq.
      unfold valueOfThis, JsNumber.Number.
      rewrite (JsNumberFacts.or_zero_zero _ Hz).
      apply JsNumberFacts.mul_zero_div_pos; [exact Hfin | reflexivity | exact Hpos].
  - intros r Hr.
    destruct (Updated_sources _ _ _ Hup r Hr) as (p & g & i & Hp & Hg & Hi & ->).
    exists p, g, i. repeat split; assumption.
  - intros Ht Hu i Hv. unfold valueOfThis. rewrite Ht, Hu, Hv. vm_compute. reflexivity.
Qed.

(** C2, as amended: the token amount of every record is the bigint
    quotient [incentive.amount * votesUsed.raw / totalVotes.raw],
    truncated, handed to the normalisation afterwards; the value of the
    record is computed on JS numbers from the normalized vote figures. *)
Theorem amount_in_bigints_value_in_numbers deps claimData total :
  claimEffect deps = Updated claimData total ->
  forall r, r ∈ claimData ->
    exists p g i,
      p ∈ TVoteData.winners (voteData deps) /\
      protocols deps !! p = Some g /\
      i ∈ TGroupIncentive.incentives g /\
      TClaimDetails.id r = idOf deps p i /\
      rawAmountOfThis deps i
      = Ok (Z.quot (TIncentives.amount i * raw (TVoteData.votesUsed (voteData deps)))
              (raw (totalVotes deps))) /\
      TClaimDetails.amount r
      = toNormalizedBN
          (Z.quot (TIncentives.amount i * raw (TVoteData.votesUsed (voteData deps)))
             (raw (totalVotes deps)))
          (Some (decimalsOr18 i)) /\
      TClaimDetails.value r
      = JsNumber.div
          (JsNumber.mul (TIncentives.value i)
             (JsNumber.or_zero (normalized (TVoteData.votesUsed (voteData deps)))))
          (normalized (totalVotes deps)).
Proof.
  intros Hup r Hr.
  destruct (Updated_sources _ _ _ Hup r Hr) as (p & g & i & Hp & Hg & Hi & ->).
  apply claimEffect_Updated in Hup as (Hne & _).
  exists p, g, i. repeat split; try assumption.
  apply rawAmountOfThis_guarded, Hne.
Qed.

(** C3: no record of an update carries an id of the claimed list; and
    when the loops visit an incentive whose id is claimed, the claimable
    list stays as it is and the total grows by the share of that
    incentive, from where the remaining visits lead to the update. *)
Theorem claimed_incentive_counted_not_claimable deps claimData total claimed :
  claimEffect deps = Updated claimData total ->
  claimedIncentives deps = Some claimed ->
  (forall r, r ∈ claimData -> TClaimDetails.id r ∉ TClaimedIncentive.id <$> claimed) /\
  (forall before p i after,
     processed deps (TVoteData.winners (voteData deps)) = before ++ (p, i) :: after ->
     idOf deps p i ∈ TClaimedIncentive.id <$> claimed ->
     exists claimData0 total0,
       forProcessed deps claimed before ([], JsNumber.of_Z 0) = Ok (claimData0, total0) /\
       processIncentive deps claimed p (claimData0, total0) i
       = Ok (claimData0, JsNumber.add total0 (valueOfThis deps i)) /\
       forProcessed deps claimed after
         (claimData0, JsNumber.add total0 (valueOfThis deps i))
       = Ok (claimData, total)).
Proof.
  intros Hup Hcl. apply claimEffect_Updated in Hup as (Hne & claimed' & Hcl' & Hrun).
  rewrite Hcl in Hcl'. injection Hcl' as <-.
  assert (Hfresh : forall visits cd t,
            forProcessed deps claimed visits ([], JsNumber.of_Z 0) = Ok (cd, t) ->
            forall r, r ∈ cd -> isClaimed (TClaimDetails.id r) claimed = false).
  { intros visits cd t Hv. eapply forProcessed_unclaimed; [exact Hne | | exact Hv].
    intros r Hr. inversion Hr. }
  split.
  - intros r Hr Hin. apply isClaimed_true in Hin.
    rewrite (Hfresh _ _ _ Hrun r Hr) in Hin. discriminate.
  - intros before p i after Hsplit Hin.
    rewrite Hsplit, forProcessed_app in Hrun.
    destruct (forProcessed_total toAddress toNormalizedBN encodeFunctionData
                BOOTSTRAP_ADDRESS deps claimed Hne before ([], JsNumber.of_Z 0))
      as [[claimData0 total0] Hbefore].
    rewrite Hbefore in Hrun. cbn [bind] in Hrun.
    rewrite forProcessed_cons in Hrun.
    assert (Hstep : processIncentive deps claimed p (claimData0, total0) i
                    = Ok (claimData0, JsNumber.add total0 (valueOfThis deps i))).
    { rewrite processIncentive_guarded by exact Hne.
      destruct (hasId (idOf deps p i) claimData0) eqn:Hhas.
      - apply hasId_true, list_elem_of_fmap in Hhas as (r & Hid & Hr).
        apply isClaimed_true in Hin.
        rewrite Hid, (Hfresh _ _ _ Hbefore r Hr) in Hin. discriminate.
      - apply isClaimed_true in Hin. rewrite Hin. reflexivity. }
    rewrite Hstep in Hrun. cbn [bind] in Hrun.
    exists claimData0, total0. auto.
Qed.

(** The loops over a concatenation of winners. *)
Lemma processed_app deps winners1 winners2 :
  processed deps (winners1 ++ winners2)
  = processed deps winners1 ++ processed deps winners2.
Proof. unfold processed. apply flat_map_app. Qed.

Lemma processed_missing deps p winners :
  protocols deps !! p = None -> processed deps (p :: winners) = processed deps winners.
Proof. intros Hp. unfold processed. simpl. rewrite Hp. reflexivity. Qed.

(** C7: a winner with no entry in the incentive history is passed over:
    the loops, and so the effect, end as they do without that winner in
    the list, and the effect does not throw. *)
Theorem missing_history_skipped deps before p after :
  protocols deps !! p = None ->
  (forall claimed acc,
     forWinners deps claimed (before ++ p :: after) acc
     = forWinners deps claimed (before ++ after) acc) /\
  claimEffect (withWinners (before ++ p :: after) deps)
  = claimEffect (withWinners (before ++ after) deps) /\
  claimEffect (withWinners (before ++ p :: after) deps) <> Thrown.
Proof.
  intros Hp.
  assert (Hloops : forall claimed acc,
            forWinners deps claimed (before ++ p :: after) acc
            = forWinners deps claimed (before ++ after) acc).
  { intros claimed acc. rewrite !forWinners_forProcessed, !processed_app.
    rewrite processed_missing by exact Hp. reflexivity. }
  split; [exact Hloops |]. split; [| apply claimEffect_not_Thrown].
  unfold ClaimView.claimEffect. simpl.
  destruct (raw (totalVotes deps) =? 0); [reflexivity |].
  destruct (claimedIncentives deps) as [claimed|]; [| reflexivity].
  change (forWinners (withWinners (before ++ p :: after) deps) claimed)
    with (forWinners deps claimed).
  change (forWinners (withWinners (before ++ after) deps) claimed)
    with (forWinners deps claimed).
  rewrite Hloops. reflexivity.
Qed.

End Claims.

(** *** The scenario, run through each statement *)

Lemma claimable_value_pro_rata_demo :
  Demo.claimEffect Demo.deps = Updated Demo.claimData Demo.total /\
  valueOfThis Demo.deps Demo.incentiveA = JsNumber.of_Z 250.
Proof.
  split; [vm_compute; reflexivity |].
  refine (proj2 (proj2 (claimable_value_pro_rata Demo.toAddress Demo.toNormalizedBN
            Demo.encodeFunctionData Demo.BOOTSTRAP_ADDRESS Demo.deps Demo.claimData
            Demo.total _)) _ _ Demo.incentiveA _);
    vm_compute; reflexivity.
Defined.

Lemma amount_in_bigints_value_in_numbers_demo :
  Demo.claimEffect Demo.deps = Updated Demo.claimData Demo.total /\
  Demo.recordOf "0xP2" Demo.incentiveC ∈ Demo.claimData /\
  exists p g i,
    p ∈ ["0xP1"; "0xP9"; "0xP2"] /\
    Demo.history !! p = Some g /\
    i ∈ TGroupIncentive.incentives g /\
    TClaimDetails.id (Demo.recordOf "0xP2" Demo.incentiveC)
    = idOf Demo.toAddress Demo.deps p i /\
    rawAmountOfThis Demo.deps i
    = Ok (Z.quot (TIncentives.amount i * (25 * 10 ^ 18)) (100 * 10 ^ 18)) /\
    TClaimDetails.amount (Demo.recordOf "0xP2" Demo.incentiveC)
    = Demo.toNormalizedBN
        (Z.quot (TIncentives.amount i * (25 * 10 ^ 18)) (100 * 10 ^ 18))
        (Some (decimalsOr18 i)) /\
    TClaimDetails.value (Demo.recordOf "0xP2" Demo.incentiveC)
    = JsNumber.div
        (JsNumber.mul (TIncentives.value i) (JsNumber.or_zero (JsNumber.of_Z 25)))
        (JsNumber.of_Z 100).
Proof.
  assert (Hrun : Demo.claimEffect Demo.deps = Updated Demo.claimData Demo.total)
    by (vm_compute; reflexivity).
  assert (Hin : Demo.recordOf "0xP2" Demo.incentiveC ∈ Demo.claimData)
    by (right; left).
  split; [exact Hrun |]. split; [exact Hin |].
  exact (amount_in_bigints_value_in_numbers Demo.toAddress Demo.toNormalizedBN
           Demo.encodeFunctionData Demo.BOOTSTRAP_ADDRESS Demo.deps Demo.claimData
           Demo.total Hrun _ Hin).
Defined.

Lemma claimed_incentive_counted_not_claimable_demo :
  Demo.claimEffect Demo.deps = Updated Demo.claimData Demo.total /\
  claimedIncentives Demo.deps = Some [TClaimedIncentive.mk "0xP1-0xB-0xU5e7"] /\
  forall r, r ∈ Demo.claimData ->
    TClaimDetails.id r ∉ TClaimedIncentive.id <$> [TClaimedIncentive.mk "0xP1-0xB-0xU5e7"].
Proof.
  split; [vm_compute; reflexivity |]. split; [reflexivity |].
  refine (proj1 (claimed_incentive_counted_not_claimable Demo.toAddress Demo.toNormalizedBN
            Demo.encodeFunctionData Demo.BOOTSTRAP_ADDRESS Demo.deps Demo.claimData
            Demo.total _ _ _)); [vm_compute; reflexivity | reflexivity].
Defined.

Lemma claimable_ids_NoDup_demo :
  Demo.claimEffect Demo.deps = Updated Demo.claimData Demo.total /\
  NoDup (TClaimDetails.id <$> Demo.claimData).
Proof.
  split; [vm_compute; reflexivity |].
  refine (claimable_ids_NoDup Demo.toAddress Demo.toNormalizedBN
            Demo.encodeFunctionData Demo.BOOTSTRAP_ADDRESS Demo.deps Demo.claimData
            Demo.total _); vm_compute; reflexivity.
Defined.

Lemma fresh_claimable_all_selected_demo :
  Demo.claimEffect Demo.deps = Updated Demo.claimData Demo.total /\
  Forall (fun r => TClaimDetails.isSelected r = true) Demo.claimData /\
  ClaimConfirmationModal.totalToClaim Demo.claimData = ClaimView.totalToClaim Demo.claimData.
Proof.
  split; [vm_compute; reflexivity |].
  refine (fresh_claimable_all_selected Demo.toAddress Demo.toNormalizedBN
            Demo.encodeFunctionData Demo.BOOTSTRAP_ADDRESS Demo.deps Demo.claimData
            Demo.total _); vm_compute; reflexivity.
Defined.

Lemma claimEffect_no_division_by_zero_demo :
  Demo.claimEffect Demo.deps <> Thrown /\
  Demo.claimEffect (mkDeps (mkNormalizedBN 0 (JsNumber.of_Z 0)) (Some [])
                      (voteData Demo.deps) Demo.history None) = Returned.
Proof.
  split.
  - exact (proj1 (claimEffect_no_division_by_zero Demo.toAddress Demo.toNormalizedBN
                    Demo.encodeFunctionData Demo.BOOTSTRAP_ADDRESS Demo.deps)).
  - refine (proj1 (proj1 (proj2 (claimEffect_no_division_by_zero Demo.toAddress
              Demo.toNormalizedBN Demo.encodeFunctionData Demo.BOOTSTRAP_ADDRESS _)) _)).
    reflexivity.
Defined.

Lemma missing_history_skipped_demo :
  Demo.history !! "0xP9" = None /\
  Demo.claimEffect (withWinners ["0xP1"; "0xP9"; "0xP2"] Demo.deps)
  = Demo.claimEffect (withWinners ["0xP1"; "0xP2"] Demo.deps).
Proof.
  split; [vm_compute; reflexivity |].
  refine (proj1 (proj2 (missing_history_skipped Demo.toAddress Demo.toNormalizedBN
            Demo.encodeFunctionData Demo.BOOTSTRAP_ADDRESS Demo.deps
            ["0xP1"] "0xP9" ["0xP2"] _))); vm_compute; reflexivity.
Defined.

(** C2 as worded fails: with a value of 1000 and one vote out of three,
    integer arithmetic on raw units gives 333, while the record carries
    the double nearest to 1000/3, which is no integer. *)
Lemma claimable_value_not_fixed_point :
  exists claimData total r,
    Demo.claimEffect Demo.thirds = Updated claimData total /\
    r ∈ claimData /\
    TClaimDetails.id r = idOf Demo.toAddress Demo.thirds "0xP1" Demo.incentiveA /\
    TIncentives.value Demo.incentiveA = JsNumber.of_Z 1000 /\
    claimableValue_fixedPoint Demo.thirds 1000 = 333 /\
    TClaimDetails.value r = S754_finite false 5864062014805333 (-44) /\
    JsNumber.is_integer (TClaimDetails.value r) = false /\
    TClaimDetails.value r <> JsNumber.of_Z (claimableValue_fixedPoint Demo.thirds 1000).
Proof.
  eexists _, _, (ClaimView.recordOf Demo.toAddress Demo.toNormalizedBN
                   Demo.encodeFunctionData Demo.BOOTSTRAP_ADDRESS Demo.thirds
                   "0xP1" Demo.incentiveA).
  split; [vm_compute; reflexivity |].
  split; [left |].
  repeat split; try (vm_compute; reflexivity).
  vm_compute. discriminate.
Qed.

End ClaimSpec.

(** ** The batch of the claim action *)

Module ModalSpec.
Import ClaimConfirmationModal.

Lemma multicallData_app (l1 l2 : list TClaimDetails.t) :
  multicallData (l1 ++ l2) = multicallData l1 ++ multicallData l2.
Proof. unfold multicallData. rewrite List.filter_app, List.map_app. reflexivity. Qed.

Lemma multicallData_cons (x : TClaimDetails.t) (l : list TClaimDetails.t) :
  multicallData (x :: l)
  = (if TClaimDetails.isSelected x then [TClaimDetails.multicall x] else [])
    ++ multicallData l.
Proof. unfold multicallData. simpl. destruct (TClaimDetails.isSelected x); reflexivity. Qed.

(** C6: the batch handed to the multicall action is the list of the
    calls of the selected incentives, in the order of the claimable
    list: a selected incentive contributes its call at its place, an
    unselected one contributes nothing. *)
Theorem claim_batch_selected_in_order
    (toAddress : option string -> TAddress) (BOOTSTRAP_ADDRESS : option string)
    (claimableIncentive : list TClaimDetails.t) :
  batch (onClaim toAddress BOOTSTRAP_ADDRESS claimableIncentive)
  = selectedCalls claimableIncentive /\
  (forall before incentive after,
     multicallData (before ++ incentive :: after)
     = multicallData before
       ++ (if TClaimDetails.isSelected incentive
           then [TClaimDetails.multicall incentive] else [])
       ++ multicallData after) /\
  (forall call,
     call ∈ multicallData claimableIncentive <->
     exists incentive,
       incentive ∈ claimableIncentive /\
       TClaimDetails.isSelected incentive = true /\
       TClaimDetails.multicall incentive = call) /\
  length (multicallData claimableIncentive)
  = length (List.filter TClaimDetails.isSelected claimableIncentive).
Proof.
  split; [| split; [| split]].
  - simpl. induction claimableIncentive as [|x l IH]; [reflexivity |].
    rewrite multicallData_cons, IH. simpl.
    destruct (TClaimDetails.isSelected x); reflexivity.
  - intros before incentive after.
    rewrite multicallData_app, multicallData_cons. reflexivity.
  - intros call. unfold multicallData.
    rewrite list_elem_of_In, in_map_iff. split.
    + intros (x & Hcall & Hx). apply filter_In in Hx as [Hx Hsel].
      exists x. rewrite list_elem_of_In. auto.
    + intros (x & Hx & Hsel & Hcall). exists x. split; [exact Hcall |].
      apply filter_In. rewrite <- list_elem_of_In. auto.
  - unfold multicallData. apply length_map.
Qed.

End ModalSpec.

(** ** The initial tab *)

Module YETHSpec.
Import YETH.

Lemma defaultTab_first : tabs !! 0%nat = Some defaultTab.
Proof. reflexivity. Qed.

(** The effect, read through the query value. *)
Lemma initialTab_queryValue (asPath : string) :
  initialTab asPath
  = match queryValue asPath with
    | None => defaultTab
    | Some actionType =>
        match findTab (toLowerCase actionType) with
        | None => defaultTab
        | Some tabValue => default defaultTab (tabs !! tabValue)
        end
    end.
Proof.
  unfold initialTab, mountEffect, queryValue.
  destruct (split "?" asPath !! 1%nat) as [action|]; [| reflexivity].
  destruct (String.eqb (actionTypeOf action) EmptyString); [reflexivity |].
  destruct (findTab _) as [i|]; [| reflexivity].
  destruct (tabs !! i); reflexivity.
Qed.


(** The value is the text between the first and the second ['='] of what
    follows the first ['?']: the name of the parameter is not read, and a
    second parameter becomes part of the value. *)
Example query_value_single : queryValue "/?action=withdraw" = Some "withdraw".
Proof. reflexivity. Qed.

Example query_value_any_name : initialTab "/?tab=withdraw" = mkTab 1 "Withdraw" "withdraw".
Proof. reflexivity. Qed.

Example query_value_two_parameters :
  queryValue "/?action=swap&ref=home" = Some "swap&ref" /\
  initialTab "/?action=swap&ref=home" = defaultTab.
Proof. split; reflexivity. Qed.

Example split_pieces :
  split "?" "a?b?c" = ["a"; "b"; "c"] /\ split "?" "" = [""] /\ split "?" "?" = [""; ""].
Proof. repeat split; reflexivity. Qed.

End YETHSpec.

(** ** Toggling one incentive *)

Module UpdateSpec.
Import JsArray JsArrayFacts ClaimView.

(** The update on record values, through [findIndex]. *)
Lemma updateFirst_findIndex (id : string) (isSelected : bool) (l : list TClaimDetails.t) :
  updateFirst id isSelected l
  = match findIndex (fun item => String.eqb (TClaimDetails.id item) id) l with
    | None => l
    | Some index => alter (TClaimDetails.set_isSelected isSelected) index l
    end.
Proof.
  induction l as [|a l IH]; simpl; [reflexivity |].
  destruct (String.eqb (TClaimDetails.id a) id); [reflexivity |].
  rewrite IH. destruct (findIndex _ l); reflexivity.
Qed.

(** Writing through one reference of an array of distinct references
    changes the one slot that holds it. *)
Lemma records_alter (h : gmap Ref TClaimDetails.t) (rs : list Ref) (index : nat) (r : Ref)
    (f : TClaimDetails.t -> TClaimDetails.t) :
  NoDup rs -> rs !! index = Some r ->
  records (mkStore (alter f r h) rs)
  = <[index := f <$> h !! r]> (records (mkStore h rs)).
Proof.
  intros Hnd Hr. unfold records. simpl. apply list_eq. intros j.
  rewrite list_lookup_fmap.
  destruct (decide (index = j)) as [<-|Hne].
  - rewrite list_lookup_insert_eq.
    + rewrite Hr. simpl. rewrite lookup_alter_eq. reflexivity.
    + rewrite length_fmap. apply lookup_lt_Some in Hr. exact Hr.
  - rewrite list_lookup_insert_ne by exact Hne.
    rewrite list_lookup_fmap.
    destruct (rs !! j) as [r'|] eqn:Hr'; simpl; [| reflexivity].
    rewrite lookup_alter_ne; [reflexivity |].
    intros <-. apply Hne. eapply NoDup_lookup; eauto.
Qed.

Lemma records_storeOf (l : list TClaimDetails.t) : records (storeOf l) = Some <$> l.
Proof.
  unfold records, storeOf. simpl. apply list_eq. intros j.
  rewrite !list_lookup_fmap.
  destruct (decide (j < length l)%nat) as [Hlt|Hge].
  - rewrite lookup_seq_lt by exact Hlt. simpl.
    rewrite lookup_map_seq_0.
    destruct (lookup_lt_is_Some_2 l j Hlt) as [x ->]. reflexivity.
  - rewrite lookup_seq_ge by lia. rewrite lookup_ge_None_2 by lia. reflexivity.
Qed.

Lemma list_alter_lookup {A : Type} (f : A -> A) (l : list A) (index : nat) (x : A) :
  l !! index = Some x -> alter f index l = <[index := f x]> l.
Proof.
  revert index. induction l as [|a l IH]; intros [|index] Hx; simpl in *;
    try discriminate.
  - injection Hx as ->. reflexivity.
  - f_equal. apply IH, Hx.
Qed.

(** On a list built by the effect the update through the references
    shows as the update of the first record with the id. *)
Lemma onUpdateIncentive_storeOf (id : string) (isSelected : bool)
    (l : list TClaimDetails.t) :
  records (onUpdateIncentive id isSelected (storeOf l))
  = Some <$> updateFirst id isSelected l.
Proof.
  assert (Hfind : findIndex (refHasId (heap (storeOf l)) id) (refs (storeOf l))
                  = findIndex (fun item => String.eqb (TClaimDetails.id item) id) l).
  { transitivity (findIndex
                    (fun o : option TClaimDetails.t =>
                       match o with
                       | Some item => String.eqb (TClaimDetails.id item) id
                       | None => false
                       end)
                    (records (storeOf l))).
    - unfold records. rewrite findIndex_fmap. reflexivity.
    - rewrite records_storeOf, findIndex_fmap. reflexivity. }
  unfold onUpdateIncentive. rewrite Hfind, updateFirst_findIndex.
  destruct (findIndex _ l) as [index|] eqn:Hidx; [| apply records_storeOf].
  apply findIndex_Some in Hidx as (x & Hx & _ & _).
  assert (Hlt : (index < length l)%nat) by (eapply lookup_lt_Some; eauto).
  simpl refs. rewrite lookup_seq_lt by exact Hlt. simpl.
  rewrite records_alter with (index := index).
  - fold (storeOf l). rewrite records_storeOf. simpl.
    rewrite lookup_map_seq_0, Hx. simpl.
    rewrite (list_alter_lookup _ _ _ _ Hx), list_fmap_insert. reflexivity.
  - apply NoDup_seq.
  - apply lookup_seq_lt. exact Hlt.
Qed.

(** C10: with no record of the id the state is left as it is; otherwise
    the first record with the id gets the new flag and keeps its other
    fields, the array keeps its references, every other object is
    untouched, and (the references being distinct) every other slot of
    the list shows what it showed. *)
Theorem onUpdateIncentive_frame (id : string) (isSelected : bool) (st : Store) :
  ((forall r, r ∈ refs st -> refHasId (heap st) id r = false) ->
   onUpdateIncentive id isSelected st = st) /\
  (forall index r item,
     refs st !! index = Some r ->
     heap st !! r = Some item ->
     TClaimDetails.id item = id ->
     (forall j r', (j < index)%nat -> refs st !! j = Some r' ->
        refHasId (heap st) id r' = false) ->
     refs (onUpdateIncentive id isSelected st) = refs st /\
     heap (onUpdateIncentive id isSelected st) !! r
     = Some (TClaimDetails.set_isSelected isSelected item) /\
     (forall r', r' <> r ->
        heap (onUpdateIncentive id isSelected st) !! r' = heap st !! r') /\
     (NoDup (refs st) ->
      records (onUpdateIncentive id isSelected st)
      = <[index := Some (TClaimDetails.set_isSelected isSelected item)]> (records st))) /\
  (forall item,
     TClaimDetails.isSelected (TClaimDetails.set_isSelected isSelected item) = isSelected /\
     TClaimDetails.id (TClaimDetails.set_isSelected isSelected item)
     = TClaimDetails.id item /\
     TClaimDetails.protocolName (TClaimDetails.set_isSelected isSelected item)
     = TClaimDetails.protocolName item /\
     TClaimDetails.value (TClaimDetails.set_isSelected isSelected item)
     = TClaimDetails.value item /\
     TClaimDetails.amount (TClaimDetails.set_isSelected isSelected item)
     = TClaimDetails.amount item /\
     TClaimDetails.token (TClaimDetails.set_isSelected isSelected item)
     = TClaimDetails.token item /\
     TClaimDetails.multicall (TClaimDetails.set_isSelected isSelected item)
     = TClaimDetails.multicall item) /\
  (forall l,
     records (onUpdateIncentive id isSelected (storeOf l))
     = Some <$> updateFirst id isSelected l) /\
  (forall l, id ∉ TClaimDetails.id <$> l -> updateFirst id isSelected l = l) /\
  (forall before item after,
     TClaimDetails.id item = id ->
     id ∉ TClaimDetails.id <$> before ->
     updateFirst id isSelected (before ++ item :: after)
     = before ++ TClaimDetails.set_isSelected isSelected item :: after).
Proof.
  split; [| split; [| split; [| split; [| split]]]].
  - intros Hno. unfold onUpdateIncentive.
    apply findIndex_None in Hno. rewrite Hno. reflexivity.
  - intros index r item Hr Hitem Hid Hbefore.
    assert (Hidx : findIndex (refHasId (heap st) id) (refs st) = Some index).
    { apply (findIndex_first _ _ _ r Hr); [| exact Hbefore].
      unfold refHasId. rewrite Hitem. apply String.eqb_eq, Hid. }
    unfold onUpdateIncentive. rewrite Hidx, Hr. simpl.
    split; [reflexivity |]. split; [| split].
    + rewrite lookup_alter_eq, Hitem. reflexivity.
    + intros r' Hne. apply lookup_alter_ne. congruence.
    + intros Hnd. destruct st as [h rs]. simpl in *.
      rewrite (records_alter h rs index r _ Hnd Hr), Hitem. reflexivity.
  - intros item. repeat split.
  - intros l. apply onUpdateIncentive_storeOf.
  - intros l Hno. induction l as [|a l IH]; simpl; [reflexivity |].
    rewrite fmap_cons in Hno. apply not_elem_of_cons in Hno as [Hne Hno].
    destruct (String.eqb_spec (TClaimDetails.id a) id) as [Heq|_]; [congruence |].
    rewrite IH by exact Hno. reflexivity.
  - intros before item after Hid Hno.
    induction before as [|a before IH]; simpl.
    + rewrite Hid, String.eqb_refl. reflexivity.
    + rewrite fmap_cons in Hno. apply not_elem_of_cons in Hno as [Hne Hno].
      destruct (String.eqb_spec (TClaimDetails.id a) id) as [Heq|_]; [congruence |].
      rewrite IH by exact Hno. reflexivity.
Qed.

Lemma onUpdateIncentive_frame_demo :
  records (onUpdateIncentive "0xP2-0xC-0xU5e7" false (storeOf Demo.claimData))
  = [Some (Demo.recordOf "0xP1" Demo.incentiveA);
     Some (TClaimDetails.set_isSelected false (Demo.recordOf "0xP2" Demo.incentiveC))] /\
  onUpdateIncentive "0xP2-0xD-0xU5e7" false (storeOf Demo.claimData)
  = storeOf Demo.claimData.
Proof.
  pose proof (onUpdateIncentive_frame "0xP2-0xC-0xU5e7" false (storeOf Demo.claimData))
    as (_ & Hsome & _).
  pose proof (onUpdateIncentive_frame "0xP2-0xD-0xU5e7" false (storeOf Demo.claimData))
    as (Hnone & _).
  split.
  - destruct (Hsome 1%nat 1%nat (Demo.recordOf "0xP2" Demo.incentiveC))
      as (_ & _ & _ & Hrecords).
    + reflexivity.
    + vm_compute. reflexivity.
    + vm_compute. reflexivity.
    + intros [|j] r' Hj Hr'; [| lia]. injection Hr' as <-. vm_compute. reflexivity.
    + rewrite Hrecords by apply NoDup_seq. vm_compute. reflexivity.
  - apply Hnone. intros r Hr.
    repeat (apply elem_of_cons in Hr as [->|Hr]; [vm_compute; reflexivity |]).
    inversion Hr.
Defined.

(** Were one object held in two slots, both would show the new flag;
    the effect never builds such a list, each pushed record being an
    object of its own. *)
Example shared_object_shows_twice :
  records (onUpdateIncentive "0xP1-0xA-0xU5e7" false
             (mkStore {[ 0%nat := Demo.recordOf "0xP1" Demo.incentiveA ]} [0%nat; 0%nat]))
  = [Some (TClaimDetails.set_isSelected false (Demo.recordOf "0xP1" Demo.incentiveA));
     Some (TClaimDetails.set_isSelected false (Demo.recordOf "0xP1" Demo.incentiveA))].
Proof. vm_compute. reflexivity. Qed.

End UpdateSpec.

(** ** The claimable list as a whole *)

Module ClaimOrderSpec.
Import ClaimView ClaimFacts ClaimOrder.

Lemma isClaimed_app (id : string) (claimed more : list TClaimedIncentive.t) :
  isClaimed id (claimed ++ more) = isClaimed id claimed || isClaimed id more.
Proof.
  unfold isClaimed. induction claimed as [|c claimed IH]; simpl; [reflexivity |].
  destruct (String.eqb (TClaimedIncentive.id c) id); [reflexivity | exact IH].
Qed.

Lemma totalToClaim_snoc (l : list TClaimDetails.t) (r : TClaimDetails.t) :
  ClaimView.totalToClaim (l ++ [r])
  = JsNumber.add (ClaimView.totalToClaim l) (TClaimDetails.value r).
Proof. unfold ClaimView.totalToClaim. rewrite fold_left_app. reflexivity. Qed.

Section Order.

Variable toAddress : option string -> TAddress.
Variable toNormalizedBN : Z -> option Z -> TNormalizedBN.
Variable encodeFunctionData : string -> list TAddress -> Hex.
Variable BOOTSTRAP_ADDRESS : option string.

Local Abbreviation claimEffect :=
  (ClaimView.claimEffect toAddress toNormalizedBN encodeFunctionData BOOTSTRAP_ADDRESS).
Local Abbreviation forProcessed :=
  (ClaimView.forProcessed toAddress toNormalizedBN encodeFunctionData BOOTSTRAP_ADDRESS).
Local Abbreviation recordOf :=
  (ClaimView.recordOf toAddress toNormalizedBN encodeFunctionData BOOTSTRAP_ADDRESS).
Local Abbreviation idOf := (ClaimView.idOf toAddress).
Local Abbreviation keepFirst := (ClaimOrder.keepFirst toAddress).
Local Abbreviation unclaimed := (ClaimOrder.unclaimed toAddress).
Local Abbreviation ids := (fmap (M := list) TClaimDetails.id).

Local Abbreviation recordOfVisit :=
  (ClaimOrder.recordOfVisit toAddress toNormalizedBN encodeFunctionData BOOTSTRAP_ADDRESS).

Lemma forProcessed_keepFirst deps claimed visits claimData total claimData' total' :
  raw (totalVotes deps) <> 0 ->
  forProcessed deps claimed visits (claimData, total) = Ok (claimData', total') ->
  claimData'
  = claimData
    ++ List.map (recordOfVisit deps)
         (keepFirst deps (ids claimData) (unclaimed deps claimed visits)).
Proof.
  intros Hne. revert claimData total.
  induction visits as [|[p i] visits IH]; intros claimData total.
  - simpl. intros [= <- <-]. rewrite app_nil_r. reflexivity.
  - rewrite forProcessed_cons, processIncentive_guarded by exact Hne.
    cbn [bind]. unfold ClaimOrder.unclaimed. cbn [List.filter fst snd].
    fold (unclaimed deps claimed visits).
    destruct (hasId (idOf deps p i) claimData) eqn:Hhas.
    + intros Hrun. apply IH in Hrun. rewrite Hrun.
      destruct (isClaimed (idOf deps p i) claimed); cbn [negb]; [reflexivity |].
      cbn [ClaimOrder.keepFirst fst snd].
      apply hasId_true in Hhas. rewrite bool_decide_eq_true_2 by exact Hhas.
      reflexivity.
    + destruct (isClaimed (idOf deps p i) claimed); cbn [negb].
      * intros Hrun. apply IH in Hrun. exact Hrun.
      * intros Hrun. apply IH in Hrun. rewrite Hrun.
        cbn [ClaimOrder.keepFirst fst snd].
        apply hasId_false in Hhas. rewrite bool_decide_eq_false_2 by exact Hhas.
        rewrite fmap_app, <- app_assoc. reflexivity.
Qed.

Lemma Updated_keepFirst deps claimed claimData total :
  claimEffect deps = Updated claimData total ->
  claimedIncentives deps = Some claimed ->
  claimData
  = List.map (recordOfVisit deps)
      (keepFirst deps []
         (unclaimed deps claimed (processed deps (TVoteData.winners (voteData deps))))).
Proof.
  intros Hup Hcl. apply claimEffect_Updated in Hup as (Hne & claimed' & Hcl' & Hrun).
  rewrite Hcl in Hcl'. injection Hcl' as <-.
  apply (forProcessed_keepFirst _ _ _ _ _ _ _ Hne) in Hrun. exact Hrun.
Qed.

Lemma keepFirst_length deps seen visits :
  (length (keepFirst deps seen visits) <= length visits)%nat.
Proof.
  revert seen. induction visits as [|visit visits IH]; intros seen; simpl; [lia |].
  destruct (bool_decide _); [specialize (IH seen); lia |].
  simpl. match goal with |- (S (length (ClaimOrder.keepFirst _ _ ?seen' _)) <= _)%nat =>
    specialize (IH seen') end. lia.
Qed.

(** X1: the claimable list of an update is, in the order of the loops,
    the record of the first visit of each id that is not claimed; it is
    no longer than the list of visits. *)
Theorem claimData_first_unclaimed_visits deps claimed claimData total :
  claimEffect deps = Updated claimData total ->
  claimedIncentives deps = Some claimed ->
  claimData
  = List.map (recordOfVisit deps)
      (keepFirst deps []
         (unclaimed deps claimed (processed deps (TVoteData.winners (voteData deps))))) /\
  (length claimData
   <= length (processed deps (TVoteData.winners (voteData deps))))%nat.
Proof.
  intros Hup Hcl. pose proof (Updated_keepFirst _ _ _ _ Hup Hcl) as Heq.
  split; [exact Heq |]. rewrite Heq, length_map.
  etrans; [apply keepFirst_length |]. unfold ClaimOrder.unclaimed.
  apply List.filter_length_le.
Qed.

(** X2: the claimable list of an update is empty exactly when every
    incentive the loops visit has a claimed id; short of that, each
    visited id that is not claimed has its record. *)
Theorem claimData_empty_iff_all_claimed deps claimed claimData total :
  claimEffect deps = Updated claimData total ->
  claimedIncentives deps = Some claimed ->
  (forall p i, (p, i) ∈ processed deps (TVoteData.winners (voteData deps)) ->
     idOf deps p i ∉ TClaimedIncentive.id <$> claimed ->
     idOf deps p i ∈ ids claimData) /\
  (claimData = [] <->
   forall p i, (p, i) ∈ processed deps (TVoteData.winners (voteData deps)) ->
     idOf deps p i ∈ TClaimedIncentive.id <$> claimed).
Proof.
  intros Hup Hcl. apply claimEffect_Updated in Hup as (Hne & claimed' & Hcl' & Hrun).
  rewrite Hcl in Hcl'. injection Hcl' as <-.
  assert (Hcomplete : forall p i,
            (p, i) ∈ processed deps (TVoteData.winners (voteData deps)) ->
            idOf deps p i ∉ TClaimedIncentive.id <$> claimed ->
            idOf deps p i ∈ ids claimData).
  { intros p i Hin Hno.
    eapply forProcessed_complete; [exact Hne | exact Hrun | exact Hin |].
    destruct (isClaimed (idOf deps p i) claimed) eqn:Hc; [| reflexivity].
    apply isClaimed_true in Hc. contradiction. }
  split; [exact Hcomplete |]. split.
  - intros -> p i Hin.
    destruct (decide (idOf deps p i ∈ TClaimedIncentive.id <$> claimed)) as [Hc|Hc];
      [exact Hc |].
    specialize (Hcomplete p i Hin Hc). inversion Hcomplete.
  - intros Hall. destruct claimData as [|r rest]; [reflexivity |]. exfalso.
    destruct (forProcessed_sources _ _ _ _ _ _ Hne _ _ _ _ _ Hrun r)
      as [Hnil|(p & i & Hin & _ & Hc)]; [left | inversion Hnil |].
    apply Hall, isClaimed_true in Hin. congruence.
Qed.

(** Dropping the visits whose id fails a test commutes with keeping
    first visits. *)
Lemma keepFirst_filter deps (keep : string -> bool) visits seen :
  List.filter (fun visit => keep (idOf deps (fst visit) (snd visit)))
    (keepFirst deps seen visits)
  = keepFirst deps (List.filter keep seen)
      (List.filter (fun visit => keep (idOf deps (fst visit) (snd visit))) visits).
Proof.
  revert seen. induction visits as [|[p i] visits IH]; intros seen; [reflexivity |].
  cbn [ClaimOrder.keepFirst List.filter fst snd].
  destruct (keep (idOf deps p i)) eqn:Hkeep.
  - cbn [ClaimOrder.keepFirst fst snd].
    destruct (decide (idOf deps p i ∈ seen)) as [Hin|Hin].
    + rewrite !bool_decide_eq_true_2; [apply IH | | exact Hin].
      apply list_elem_of_In, filter_In. split; [apply list_elem_of_In, Hin | exact Hkeep].
    + rewrite !bool_decide_eq_false_2; [| | exact Hin].
      * cbn [List.filter fst snd]. rewrite Hkeep, IH, List.filter_app.
        cbn [List.filter]. rewrite Hkeep. reflexivity.
      * intros Hf. apply list_elem_of_In, filter_In in Hf as [Hf _].
        apply Hin, list_elem_of_In, Hf.
  - destruct (bool_decide (idOf deps p i ∈ seen)); [apply IH |].
    cbn [List.filter fst snd]. rewrite Hkeep, IH, List.filter_app.
    cbn [List.filter]. rewrite Hkeep, app_nil_r. reflexivity.
Qed.

(** X3: when further incentives get claimed and nothing else changes,
    the next update holds the former claimable list without the records
    of the newly claimed ids: the other records stay, as they were and in
    their order. *)
Theorem claiming_removes_only_claimed deps claimed more claimData total claimData' total' :
  claimEffect (withClaimed claimed deps) = Updated claimData total ->
  claimEffect (withClaimed (claimed ++ more) deps) = Updated claimData' total' ->
  claimData'
  = List.filter (fun r => negb (isClaimed (TClaimDetails.id r) more)) claimData.
Proof.
  intros Hup Hup'.
  apply (Updated_keepFirst _ claimed) in Hup; [| reflexivity].
  apply (Updated_keepFirst _ (claimed ++ more)) in Hup'; [| reflexivity].
  rewrite Hup, Hup'.
  change (processed (withClaimed claimed deps)) with (processed deps).
  change (processed (withClaimed (claimed ++ more) deps)) with (processed deps).
  cbn [voteData withClaimed].
  set (visits := processed deps (TVoteData.winners (voteData deps))).
  assert (Hsplit :
    unclaimed (withClaimed (claimed ++ more) deps) (claimed ++ more) visits
    = List.filter
        (fun visit => negb (isClaimed (idOf deps (fst visit) (snd visit)) more))
        (unclaimed (withClaimed claimed deps) claimed visits)).
  { unfold ClaimOrder.unclaimed. clearbody visits.
    induction visits as [|[p i] visits IH]; [reflexivity |].
    cbn [List.filter fst snd].
    change (idOf (withClaimed (claimed ++ more) deps) p i) with (idOf deps p i).
    change (idOf (withClaimed claimed deps) p i) with (idOf deps p i).
    rewrite isClaimed_app.
    destruct (isClaimed (idOf deps p i) claimed); cbn [negb orb]; [exact IH |].
    cbn [List.filter fst snd].
    destruct (isClaimed (idOf deps p i) more); cbn [negb]; [exact IH |].
    f_equal. exact IH. }
  rewrite Hsplit.
  change (keepFirst (withClaimed (claimed ++ more) deps)) with (keepFirst deps).
  change (keepFirst (withClaimed claimed deps)) with (keepFirst deps).
  rewrite <- (keepFirst_filter deps (fun id => negb (isClaimed id more)) _ []).
  generalize (keepFirst deps [] (unclaimed (withClaimed claimed deps) claimed visits)).
  intros kept. induction kept as [|[p i] kept IH]; [reflexivity |].
  cbn [List.filter List.map fst snd].
  change (TClaimDetails.id (recordOfVisit (withClaimed claimed deps) (p, i)))
    with (idOf deps p i).
  destruct (isClaimed (idOf deps p i) more); cbn [negb]; [exact IH |].
  cbn [List.map]. f_equal. exact IH.
Qed.

(** With no claimed id among the visits, the total grows in step with
    the sum of the claimable values. *)
Lemma forProcessed_total_in_step deps claimed visits claimData total claimData' total' :
  raw (totalVotes deps) <> 0 ->
  (forall p i, (p, i) ∈ visits -> isClaimed (idOf deps p i) claimed = false) ->
  total = ClaimView.totalToClaim claimData ->
  forProcessed deps claimed visits (claimData, total) = Ok (claimData', total') ->
  total' = ClaimView.totalToClaim claimData'.
Proof.
  intros Hne. revert claimData total.
  induction visits as [|[p i] visits IH]; intros claimData total Hno Htot.
  - simpl. intros [= <- <-]. exact Htot.
  - rewrite forProcessed_cons, processIncentive_guarded by exact Hne. cbn [bind].
    assert (Hrest : forall p0 i0, (p0, i0) ∈ visits ->
              isClaimed (idOf deps p0 i0) claimed = false).
    { intros p0 i0 Hin. apply Hno. right. exact Hin. }
    rewrite (Hno p i) by left.
    destruct (hasId (idOf deps p i) claimData); [apply IH; assumption |].
    apply IH; [exact Hrest |].
    rewrite totalToClaim_snoc, Htot. reflexivity.
Qed.

(** X4: when none of the visited incentives is claimed, the two figures
    the component shows, the total to claim and the total incentive
    value, are the same number. *)
Theorem figures_agree_when_nothing_claimed deps claimed claimData total :
  claimEffect deps = Updated claimData total ->
  claimedIncentives deps = Some claimed ->
  (forall p i, (p, i) ∈ processed deps (TVoteData.winners (voteData deps)) ->
     idOf deps p i ∉ TClaimedIncentive.id <$> claimed) ->
  ClaimView.totalToClaim claimData = total.
Proof.
  intros Hup Hcl Hno. apply claimEffect_Updated in Hup as (Hne & claimed' & Hcl' & Hrun).
  rewrite Hcl in Hcl'. injection Hcl' as <-. symmetry.
  eapply forProcessed_total_in_step; [exact Hne | | | exact Hrun]; [| reflexivity].
  intros p i Hin. specialize (Hno p i Hin).
  destruct (isClaimed (idOf deps p i) claimed) eqn:Hc; [| reflexivity].
  apply isClaimed_true in Hc. contradiction.
Qed.

End Order.

(** *** The scenario, run through each statement *)

Lemma claimData_first_unclaimed_visits_demo :
  Demo.claimEffect Demo.deps = Updated Demo.claimData Demo.total /\
  Demo.claimData
  = List.map
      (recordOfVisit Demo.toAddress Demo.toNormalizedBN Demo.encodeFunctionData
         Demo.BOOTSTRAP_ADDRESS Demo.deps)
      [("0xP1", Demo.incentiveA); ("0xP2", Demo.incentiveC)].
Proof.
  split; [vm_compute; reflexivity |].
  refine (proj1 (claimData_first_unclaimed_visits Demo.toAddress Demo.toNormalizedBN
            Demo.encodeFunctionData Demo.BOOTSTRAP_ADDRESS Demo.deps
            [TClaimedIncentive.mk "0xP1-0xB-0xU5e7"] Demo.claimData Demo.total _ _));
    [vm_compute; reflexivity | reflexivity].
Defined.

Lemma claimData_empty_iff_all_claimed_demo :
  Demo.claimEffect Demo.deps = Updated Demo.claimData Demo.total /\
  idOf Demo.toAddress Demo.deps "0xP2" Demo.incentiveC ∈ TClaimDetails.id <$> Demo.claimData.
Proof.
  split; [vm_compute; reflexivity |].
  refine (proj1 (claimData_empty_iff_all_claimed Demo.toAddress Demo.toNormalizedBN
            Demo.encodeFunctionData Demo.BOOTSTRAP_ADDRESS Demo.deps
            [TClaimedIncentive.mk "0xP1-0xB-0xU5e7"] Demo.claimData Demo.total _ _)
            "0xP2" Demo.incentiveC _ _).
  - vm_compute. reflexivity.
  - reflexivity.
  - vm_compute. right. right. right. left.
  - intros Hin. apply list_elem_of_singleton in Hin. vm_compute in Hin. discriminate.
Defined.

Lemma claiming_removes_only_claimed_demo :
  Demo.claimEffect (withClaimed [TClaimedIncentive.mk "0xP1-0xB-0xU5e7"] Demo.deps)
  = Updated Demo.claimData Demo.total /\
  Demo.claimEffect
    (withClaimed ([TClaimedIncentive.mk "0xP1-0xB-0xU5e7"]
                  ++ [TClaimedIncentive.mk "0xP2-0xC-0xU5e7"]) Demo.deps)
  = Updated [Demo.recordOf "0xP1" Demo.incentiveA] Demo.total /\
  [Demo.recordOf "0xP1" Demo.incentiveA]
  = List.filter
      (fun r => negb (isClaimed (TClaimDetails.id r) [TClaimedIncentive.mk "0xP2-0xC-0xU5e7"]))
      Demo.claimData.
Proof.
  split; [vm_compute; reflexivity |]. split; [vm_compute; reflexivity |].
  refine (claiming_removes_only_claimed Demo.toAddress Demo.toNormalizedBN
            Demo.encodeFunctionData Demo.BOOTSTRAP_ADDRESS Demo.deps
            [TClaimedIncentive.mk "0xP1-0xB-0xU5e7"]
            [TClaimedIncentive.mk "0xP2-0xC-0xU5e7"]
            Demo.claimData Demo.total _ Demo.total _ _);
    vm_compute; reflexivity.
Defined.

Lemma figures_agree_when_nothing_claimed_demo :
  exists claimData total,
    Demo.claimEffect Demo.thirds = Updated claimData total /\
    ClaimView.totalToClaim claimData = total.
Proof.
  assert (Hrun : exists claimData total,
            Demo.claimEffect Demo.thirds = Updated claimData total)
    by (eexists _, _; vm_compute; reflexivity).
  destruct Hrun as (claimData & total & Hrun). exists claimData, total.
  split; [exact Hrun |].
  refine (figures_agree_when_nothing_claimed Demo.toAddress Demo.toNormalizedBN
            Demo.encodeFunctionData Demo.BOOTSTRAP_ADDRESS Demo.thirds []
            claimData total Hrun _ _); [reflexivity |].
  intros p i _ Hin. inversion Hin.
Defined.

End ClaimOrderSpec.

(** ** The bigint share *)

Module ShareSpec.
Import ClaimView ClaimFacts ClaimOrder.

Lemma quot_share_bounds (a u t : Z) :
  0 <= a -> 0 <= u -> 0 < t ->
  0 <= Z.quot (a * u) t /\
  Z.quot (a * u) t * t <= a * u < (Z.quot (a * u) t + 1) * t.
Proof.
  intros Ha Hu Ht. rewrite Z.quot_div_nonneg by nia.
  pose proof (Z.div_pos (a * u) t ltac:(nia) Ht).
  pose proof (Z.mul_div_le (a * u) t Ht).
  pose proof (Z.mul_succ_div_gt (a * u) t Ht).
  split; [assumption | nia].
Qed.

(** X5: with unsigned figures and the user's votes within the total, the
    bigint share of an incentive lies between zero and the incentive
    amount, and the truncation leaves out less than one raw unit. *)
Theorem share_within_amount (deps : Deps) (incentive : TIncentives.t) :
  0 <= TIncentives.amount incentive ->
  0 <= raw (TVoteData.votesUsed (voteData deps)) ->
  raw (TVoteData.votesUsed (voteData deps)) <= raw (totalVotes deps) ->
  raw (totalVotes deps) <> 0 ->
  exists share,
    rawAmountOfThis deps incentive = Ok share /\
    0 <= share <= TIncentives.amount incentive /\
    share * raw (totalVotes deps)
    <= TIncentives.amount incentive * raw (TVoteData.votesUsed (voteData deps))
    < (share + 1) * raw (totalVotes deps).
Proof.
  intros Ha Hu Hle Hne. eexists. split; [apply rawAmountOfThis_guarded, Hne |].
  pose proof (quot_share_bounds (TIncentives.amount incentive)
                (raw (TVoteData.votesUsed (voteData deps))) (raw (totalVotes deps))
                Ha Hu ltac:(lia)) as (H0 & Hlo & Hhi).
  split; [| split; assumption]. split; [exact H0 | nia].
Qed.

Lemma share_within_amount_demo :
  exists share,
    rawAmountOfThis Demo.deps Demo.incentiveA = Ok share /\
    0 <= share <= 4000 /\
    share * (100 * 10 ^ 18) <= 4000 * (25 * 10 ^ 18) < (share + 1) * (100 * 10 ^ 18).
Proof.
  apply (share_within_amount Demo.deps Demo.incentiveA); vm_compute; congruence.
Defined.

Lemma sum_quot_le (a t : Z) (us : list Z) :
  0 <= a -> 0 < t -> Forall (fun u => 0 <= u) us ->
  0 <= sumZ (List.map (fun u => Z.quot (a * u) t) us) /\
  sumZ (List.map (fun u => Z.quot (a * u) t) us) * t <= a * sumZ us.
Proof.
  intros Ha Ht Hus. induction Hus as [|u us Hu _ IH]; simpl; [lia |].
  pose proof (quot_share_bounds a u t Ha Hu Ht). nia.
Qed.

(** X6: the bigint shares of any voters whose votes are unsigned and add
    up to no more than the total never add up to more than the incentive
    amount. *)
Theorem shares_never_exceed_amount (deps : Deps) (incentive : TIncentives.t)
    (voters : list TNormalizedBN) :
  0 <= TIncentives.amount incentive ->
  0 < raw (totalVotes deps) ->
  Forall (fun votes => 0 <= raw votes) voters ->
  sumZ (List.map raw voters) <= raw (totalVotes deps) ->
  exists shares,
    Forall2 (fun votes share =>
               rawAmountOfThis (withVotesUsed votes deps) incentive = Ok share)
      voters shares /\
    Forall (fun share => 0 <= share) shares /\
    sumZ shares <= TIncentives.amount incentive.
Proof.
  intros Ha Ht Hvoters Hsum.
  exists (List.map
            (fun votes => Z.quot (TIncentives.amount incentive * raw votes)
                            (raw (totalVotes deps)))
            voters).
  split; [| split].
  - clear Hvoters Hsum. induction voters as [|v voters IH]; constructor; [| exact IH].
    apply (rawAmountOfThis_guarded (withVotesUsed v deps)). simpl. lia.
  - clear Hsum. induction Hvoters as [|v voters Hv _ IH]; constructor; [| exact IH].
    apply quot_share_bounds; assumption.
  - assert (Hus : Forall (fun u => 0 <= u) (List.map raw voters)).
    { clear Hsum. induction Hvoters; constructor; assumption. }
    pose proof (sum_quot_le (TIncentives.amount incentive) (raw (totalVotes deps))
                  (List.map raw voters) Ha Ht Hus) as (H0 & Hle).
    rewrite List.map_map in H0, Hle. nia.
Qed.

Lemma shares_never_exceed_amount_demo :
  exists shares,
    Forall2 (fun votes share =>
               rawAmountOfThis (withVotesUsed votes Demo.thirds) Demo.incentiveC = Ok share)
      [mkNormalizedBN (1 * 10 ^ 18) (JsNumber.of_Z 1);
       mkNormalizedBN (1 * 10 ^ 18) (JsNumber.of_Z 1);
       mkNormalizedBN (1 * 10 ^ 18) (JsNumber.of_Z 1)]
      shares /\
    Forall (fun share => 0 <= share) shares /\
    sumZ shares <= 100.
Proof.
  apply (shares_never_exceed_amount Demo.thirds Demo.incentiveC).
  - vm_compute. congruence.
  - reflexivity.
  - repeat constructor; vm_compute; congruence.
  - vm_compute. congruence.
Defined.

Section Votes.

Variable toAddress : option string -> TAddress.
Variable toNormalizedBN : Z -> option Z -> TNormalizedBN.
Variable encodeFunctionData : string -> list TAddress -> Hex.
Variable BOOTSTRAP_ADDRESS : option string.

Local Abbreviation claimEffect :=
  (ClaimView.claimEffect toAddress toNormalizedBN encodeFunctionData BOOTSTRAP_ADDRESS).

Lemma sumVotes_from (whitelistedLST : list TWhitelistedLST.t) (start : Z) :
  fold_left (fun sum item => sum + votesOrZero (TWhitelistedLST.votes item))
    whitelistedLST start
  = start + sumVotes whitelistedLST.
Proof.
  unfold sumVotes. revert start.
  induction whitelistedLST as [|item rest IH]; intros start; simpl; [lia |].
  rewrite IH, (IH (0 + _)). lia.
Qed.

Lemma sumVotes_cons (item : TWhitelistedLST.t) (rest : list TWhitelistedLST.t) :
  sumVotes (item :: rest) = votesOrZero (TWhitelistedLST.votes item) + sumVotes rest.
Proof. unfold sumVotes at 1. simpl. apply sumVotes_from. Qed.

(** X7: provided the normalisation keeps the raw figure it is given,
    with unsigned votes the effect gets past its first guard exactly
    when some whitelisted LST has a vote: with none it returns at once,
    and with one and a claimed list at hand it updates the state. *)
Theorem effect_runs_iff_some_vote (deps : Deps) (whitelistedLST : list TWhitelistedLST.t) :
  (forall v, raw (toNormalizedBN v None) = v) ->
  Forall (fun item => 0 <= votesOrZero (TWhitelistedLST.votes item)) whitelistedLST ->
  (Forall (fun item => votesOrZero (TWhitelistedLST.votes item) = 0) whitelistedLST ->
   claimEffect (withTotalVotes (computeTotalVotes toNormalizedBN whitelistedLST) deps)
   = Returned) /\
  (Exists (fun item => 0 < votesOrZero (TWhitelistedLST.votes item)) whitelistedLST ->
   claimedIncentives deps <> None ->
   exists claimData total,
     claimEffect (withTotalVotes (computeTotalVotes toNormalizedBN whitelistedLST) deps)
     = Updated claimData total).
Proof.
  intros Hraw Hpos. split.
  - intros Hzero.
    assert (Hsum : sumVotes whitelistedLST = 0).
    { clear Hpos. induction Hzero as [|item rest Hitem _ IH]; [reflexivity |].
      rewrite sumVotes_cons, Hitem, IH. reflexivity. }
    unfold ClaimView.claimEffect, computeTotalVotes. simpl.
    rewrite Hraw, Hsum. reflexivity.
  - intros Hsome Hclaimed.
    assert (Hsum : 0 < sumVotes whitelistedLST).
    { induction Hpos as [|item rest Hitem Hrest IH]; [inversion Hsome |].
      rewrite sumVotes_cons.
      pose proof (sumVotes_nonneg rest Hrest).
      apply Exists_cons in Hsome as [Hhead|Htail]; [lia |].
      specialize (IH Htail). lia. }
    destruct (claimEffect (withTotalVotes (computeTotalVotes toNormalizedBN whitelistedLST) deps))
      as [|claimData total|] eqn:Hrun.
    + exfalso. unfold ClaimView.claimEffect, computeTotalVotes in Hrun. simpl in Hrun.
      rewrite Hraw in Hrun.
      destruct (Z.eqb_spec (sumVotes whitelistedLST) 0) as [H0|_]; [lia |].
      destruct (claimedIncentives deps) as [claimed|]; [| contradiction].
      destruct (ClaimView.forWinners _ _ _ _ _ _ _ _) as [[cd t]|]; discriminate.
    + eauto.
    + exfalso. eapply claimEffect_not_Thrown. exact Hrun.
Qed.

End Votes.

Lemma effect_runs_iff_some_vote_demo :
  Demo.claimEffect
    (withTotalVotes
       (computeTotalVotes Demo.toNormalizedBN
          [TWhitelistedLST.mk None; TWhitelistedLST.mk (Some 0)])
       Demo.deps)
  = Returned /\
  exists claimData total,
    Demo.claimEffect
      (withTotalVotes
         (computeTotalVotes Demo.toNormalizedBN
            [TWhitelistedLST.mk None; TWhitelistedLST.mk (Some 7)])
         Demo.deps)
    = Updated claimData total.
Proof.
  split.
  - refine (proj1 (effect_runs_iff_some_vote Demo.toAddress Demo.toNormalizedBN
              Demo.encodeFunctionData Demo.BOOTSTRAP_ADDRESS Demo.deps _ _ _) _).
    + intros v. reflexivity.
    + repeat constructor; vm_compute; congruence.
    + repeat constructor.
  - refine (proj2 (effect_runs_iff_some_vote Demo.toAddress Demo.toNormalizedBN
              Demo.encodeFunctionData Demo.BOOTSTRAP_ADDRESS Demo.deps _ _ _) _ _).
    + intros v. reflexivity.
    + repeat constructor; vm_compute; congruence.
    + right. left. reflexivity.
    + discriminate.
Defined.

End ShareSpec.

(** ** Selecting and deselecting *)

Module SelectionSpec.
Import JsArray JsArrayFacts ClaimView ClaimConfirmationModal.

Lemma set_isSelected_twice (b b' : bool) (item : TClaimDetails.t) :
  TClaimDetails.set_isSelected b (TClaimDetails.set_isSelected b' item)
  = TClaimDetails.set_isSelected b item.
Proof. reflexivity. Qed.

Lemma set_isSelected_same (item : TClaimDetails.t) :
  TClaimDetails.set_isSelected (TClaimDetails.isSelected item) item = item.
Proof. destruct item. reflexivity. Qed.

(** Writing a flag changes no id. *)
Lemma refHasId_alter (h : gmap Ref TClaimDetails.t) (b : bool) (r r' : Ref) (id : string) :
  refHasId (alter (TClaimDetails.set_isSelected b) r h) id r' = refHasId h id r'.
Proof.
  unfold refHasId. rewrite lookup_alter.
  destruct (decide (r = r')) as [<-|_]; [| reflexivity].
  destruct (h !! r); reflexivity.
Qed.

Lemma findIndex_ext {A : Type} (pred pred' : A -> bool) (l : list A) :
  (forall x, pred x = pred' x) -> findIndex pred l = findIndex pred' l.
Proof.
  intros Hext. induction l as [|a l IH]; simpl; [reflexivity |].
  rewrite Hext, IH. reflexivity.
Qed.

(** The position a later update finds is the one the earlier found. *)
Lemma findIndex_after_update (id id' : string) (b : bool) (st : Store) :
  findIndex (refHasId (heap (onUpdateIncentive id b st)) id') (refs (onUpdateIncentive id b st))
  = findIndex (refHasId (heap st) id') (refs st).
Proof.
  unfold onUpdateIncentive.
  destruct (findIndex (refHasId (heap st) id) (refs st)) as [index|]; [| reflexivity].
  destruct (refs st !! index) as [r|]; [| reflexivity].
  simpl. apply findIndex_ext. intros r'. apply refHasId_alter.
Qed.

(** X10: toggling keeps the array of references and every id; of two
    updates of one id the later one decides; and setting the flag back
    to what the record had restores the state. *)
Theorem onUpdateIncentive_last_write_wins (id : string) (b b' : bool) (st : Store) :
  refs (onUpdateIncentive id b st) = refs st /\
  (forall id' r,
     refHasId (heap (onUpdateIncentive id b st)) id' r = refHasId (heap st) id' r) /\
  onUpdateIncentive id b (onUpdateIncentive id b' st) = onUpdateIncentive id b st /\
  (forall index r item,
     findIndex (refHasId (heap st) id) (refs st) = Some index ->
     refs st !! index = Some r ->
     heap st !! r = Some item ->
     onUpdateIncentive id (TClaimDetails.isSelected item) (onUpdateIncentive id b st) = st).
Proof.
  assert (Hlww : forall c c',
            onUpdateIncentive id c (onUpdateIncentive id c' st) = onUpdateIncentive id c st).
  { intros c c'. unfold onUpdateIncentive at 1. rewrite findIndex_after_update.
    unfold onUpdateIncentive.
    destruct (findIndex (refHasId (heap st) id) (refs st)) as [index|]; [| reflexivity].
    destruct (refs st !! index) as [r|] eqn:Hr; [| rewrite Hr; reflexivity].
    simpl. rewrite Hr. f_equal. rewrite alter_alter_eq.
    apply alter_ext. intros x _. reflexivity. }
  split; [| split; [| split]].
  - unfold onUpdateIncentive.
    destruct (findIndex _ (refs st)) as [index|]; [| reflexivity].
    destruct (refs st !! index); reflexivity.
  - intros id' r. unfold onUpdateIncentive.
    destruct (findIndex _ (refs st)) as [index|]; [| reflexivity].
    destruct (refs st !! index); [apply refHasId_alter | reflexivity].
  - apply Hlww.
  - intros index r item Hidx Hr Hitem. rewrite Hlww.
    unfold onUpdateIncentive. rewrite Hidx, Hr. destruct st as [h rs]. simpl in *.
    f_equal. apply alter_id. intros x Hx. rewrite Hitem in Hx. injection Hx as <-.
    apply set_isSelected_same.
Qed.

Lemma onUpdateIncentive_last_write_wins_demo :
  onUpdateIncentive "0xP2-0xC-0xU5e7" true
    (onUpdateIncentive "0xP2-0xC-0xU5e7" false (storeOf Demo.claimData))
  = storeOf Demo.claimData.
Proof.
  refine (proj2 (proj2 (proj2 (onUpdateIncentive_last_write_wins "0xP2-0xC-0xU5e7"
            false false (storeOf Demo.claimData)))) 1%nat 1%nat
            (Demo.recordOf "0xP2" Demo.incentiveC) _ _ _);
    vm_compute; reflexivity.
Defined.

Lemma updateFirst_first (id : string) (b : bool)
    (before : list TClaimDetails.t) (item : TClaimDetails.t) (after : list TClaimDetails.t) :
  TClaimDetails.id item = id ->
  id ∉ TClaimDetails.id <$> before ->
  updateFirst id b (before ++ item :: after)
  = before ++ TClaimDetails.set_isSelected b item :: after.
Proof.
  intros Hid Hno. induction before as [|a before IH]; simpl.
  - rewrite Hid, String.eqb_refl. reflexivity.
  - rewrite fmap_cons in Hno. apply not_elem_of_cons in Hno as [Hne Hno].
    destruct (String.eqb_spec (TClaimDetails.id a) id) as [Heq|_]; [congruence |].
    rewrite IH by exact Hno. reflexivity.
Qed.

(** X9: toggling an incentive of a list built by the effect changes the
    batch of the claim action at the place of that incentive only: its
    call is there when the flag is set and is left out when it is not. *)
Theorem toggle_changes_one_call (id : string) (b : bool)
    (before : list TClaimDetails.t) (item : TClaimDetails.t) (after : list TClaimDetails.t) :
  TClaimDetails.id item = id ->
  id ∉ TClaimDetails.id <$> before ->
  exists shown,
    records (onUpdateIncentive id b (storeOf (before ++ item :: after))) = Some <$> shown /\
    multicallData shown
    = multicallData before
      ++ (if b then [TClaimDetails.multicall item] else [])
      ++ multicallData after.
Proof.
  intros Hid Hno. exists (updateFirst id b (before ++ item :: after)).
  split; [apply UpdateSpec.onUpdateIncentive_storeOf |].
  rewrite (updateFirst_first id b before item after Hid Hno).
  rewrite ModalSpec.multicallData_app, ModalSpec.multicallData_cons. reflexivity.
Qed.

Lemma toggle_changes_one_call_demo :
  exists shown,
    records (onUpdateIncentive "0xP2-0xC-0xU5e7" false (storeOf Demo.claimData))
    = Some <$> shown /\
    multicallData shown
    = multicallData [Demo.recordOf "0xP1" Demo.incentiveA] ++ [] ++ multicallData [].
Proof.
  apply (toggle_changes_one_call "0xP2-0xC-0xU5e7" false
           [Demo.recordOf "0xP1" Demo.incentiveA] (Demo.recordOf "0xP2" Demo.incentiveC) []).
  - reflexivity.
  - intros Hin. apply list_elem_of_singleton in Hin. vm_compute in Hin. discriminate.
Defined.

(** X8: some incentive is selected exactly when the batch of the claim
    action is not empty; with none selected the batch is empty and the
    total to claim is zero. *)
Theorem hasSelected_iff_batch_nonempty (claimableIncentive : list TClaimDetails.t) :
  (hasSelected claimableIncentive = true <-> multicallData claimableIncentive <> []) /\
  (hasSelected claimableIncentive = false ->
   multicallData claimableIncentive = [] /\
   ClaimConfirmationModal.totalToClaim claimableIncentive = JsNumber.of_Z 0).
Proof.
  assert (Hnone : hasSelected claimableIncentive = false ->
            List.filter TClaimDetails.isSelected claimableIncentive = []).
  { unfold hasSelected. induction claimableIncentive as [|x l IH]; simpl; [reflexivity |].
    destruct (TClaimDetails.isSelected x); simpl; [discriminate | exact IH]. }
  split.
  - split.
    + intros Hsel Hempty. unfold hasSelected in Hsel.
      apply existsb_exists in Hsel as (x & Hin & Hx).
      assert (Hcall : In (TClaimDetails.multicall x) (multicallData claimableIncentive)).
      { unfold multicallData. apply in_map, filter_In. auto. }
      rewrite Hempty in Hcall. exact Hcall.
    + intros Hne. destruct (hasSelected claimableIncentive) eqn:Hsel; [reflexivity |].
      exfalso. apply Hne. unfold multicallData. rewrite (Hnone eq_refl). reflexivity.
  - intros Hsel. unfold multicallData, ClaimConfirmationModal.totalToClaim.
    rewrite (Hnone Hsel). split; reflexivity.
Qed.

End SelectionSpec.

(** ** Grouping by protocol *)

Module GroupingSpec.
Import ClaimGrouping.

Lemma ofProtocol_snoc (protocol : string) (seen : list TClaimDetails.t)
    (incentive : TClaimDetails.t) :
  ofProtocol protocol (seen ++ [incentive])
  = ofProtocol protocol seen
    ++ (if String.eqb (TClaimDetails.protocolName incentive) protocol
        then [incentive] else []).
Proof. unfold ofProtocol. rewrite List.filter_app. reflexivity. Qed.

Lemma groupFrom_spec (rest seen : list TClaimDetails.t)
    (result : gmap string (list TClaimDetails.t)) :
  (forall protocol, result !! protocol = groupOf protocol seen) ->
  (forall protocol, inherited protocol = true -> result !! protocol = None) ->
  (groupFrom result rest = TypeError <->
   exists incentive, incentive ∈ rest /\
     inherited (TClaimDetails.protocolName incentive) = true) /\
  (forall result', groupFrom result rest = Done result' ->
     forall protocol, result' !! protocol = groupOf protocol (seen ++ rest)).
Proof.
  revert seen result. induction rest as [|x rest IH]; intros seen result Hres Hinh.
  - simpl. split.
    + split; [discriminate | intros (y & Hy & _); inversion Hy].
    + intros result' [= <-] protocol. rewrite app_nil_r. apply Hres.
  - cbn [groupFrom]. unfold addToGroup.
    set (p := TClaimDetails.protocolName x).
    assert (Hstep : forall result1,
              (forall protocol, result1 !! protocol = groupOf protocol (seen ++ [x])) ->
              (forall protocol, inherited protocol = true -> result1 !! protocol = None) ->
              inherited p = false ->
              (groupFrom result1 rest = TypeError <->
               exists incentive, incentive ∈ x :: rest /\
                 inherited (TClaimDetails.protocolName incentive) = true) /\
              (forall result', groupFrom result1 rest = Done result' ->
                 forall protocol, result' !! protocol = groupOf protocol (seen ++ x :: rest))).
    { intros result1 Hres1 Hinh1 Hp.
      destruct (IH (seen ++ [x]) result1 Hres1 Hinh1) as [Herr Hdone]. split.
      - rewrite Herr. split.
        + intros (y & Hy & Hyi). exists y. split; [right; exact Hy | exact Hyi].
        + intros (y & Hy & Hyi). apply elem_of_cons in Hy as [->|Hy].
          * fold p in Hyi. congruence.
          * exists y. auto.
      - intros result' Hrun protocol. rewrite (Hdone result' Hrun protocol).
        rewrite <- app_assoc. reflexivity. }
    assert (Hupd : forall group,
              groupOf p (seen ++ [x]) = Some (group ++ [x]) ->
              forall protocol,
                <[p := group ++ [x]]> result !! protocol = groupOf protocol (seen ++ [x])).
    { intros group Hg protocol. destruct (decide (p = protocol)) as [<-|Hne].
      - rewrite lookup_insert_eq. symmetry. exact Hg.
      - rewrite lookup_insert_ne by exact Hne. rewrite Hres.
        unfold groupOf. rewrite ofProtocol_snoc. fold p.
        destruct (String.eqb_spec p protocol) as [|_]; [contradiction |].
        rewrite app_nil_r. reflexivity. }
    assert (Hkeep : forall group protocol,
              inherited p = false -> inherited protocol = true ->
              <[p := group]> result !! protocol = None).
    { intros group protocol Hp Hproto. rewrite lookup_insert_ne; [apply Hinh, Hproto |].
      intros <-. congruence. }
    destruct (result !! p) as [group|] eqn:Hlook.
    + assert (Hp : inherited p = false).
      { destruct (inherited p) eqn:Hi; [| reflexivity].
        rewrite (Hinh p Hi) in Hlook. discriminate. }
      apply Hstep; [| intros protocol; apply Hkeep, Hp | exact Hp].
      apply Hupd. rewrite Hres in Hlook. unfold groupOf in *.
      rewrite ofProtocol_snoc. fold p. rewrite String.eqb_refl.
      destruct (ofProtocol p seen) as [|g0 gs]; [discriminate |].
      injection Hlook as <-. reflexivity.
    + destruct (inherited p) eqn:Hp.
      * split; [| discriminate].
        split; [| reflexivity]. intros _. exists x. split; [left | exact Hp].
      * apply Hstep;
          [| intros protocol Hproto; apply Hkeep; [reflexivity | exact Hproto]
           | reflexivity].
        change [x] with ([] ++ [x]). apply Hupd.
        rewrite Hres in Hlook. unfold groupOf in *.
        rewrite ofProtocol_snoc. fold p. rewrite String.eqb_refl.
        destruct (ofProtocol p seen); [reflexivity | discriminate].
Qed.

(** X11: grouping the claimable list by protocol name throws a
    [TypeError] exactly when some name is that of a member every object
    inherits; otherwise the entry of a name is the list of the incentives
    of that name, in the order of the claimable list, and there is an
    entry only for names that occur, so no group is empty and the first
    member of a group carries the name of its entry. *)
Theorem grouping_by_protocol (claimableIncentive : list TClaimDetails.t) :
  (claimableIncentiveByProtocol claimableIncentive = TypeError <->
   exists incentive, incentive ∈ claimableIncentive /\
     inherited (TClaimDetails.protocolName incentive) = true) /\
  (forall result, claimableIncentiveByProtocol claimableIncentive = Done result ->
     forall protocol group,
       result !! protocol = Some group <->
       group = ofProtocol protocol claimableIncentive /\ group <> []) /\
  (forall result, claimableIncentiveByProtocol claimableIncentive = Done result ->
     forall protocol group,
       result !! protocol = Some group ->
       exists first others,
         group = first :: others /\ TClaimDetails.protocolName first = protocol).
Proof.
  destruct (groupFrom_spec claimableIncentive [] ∅) as [Herr Hdone].
  { intros protocol. rewrite lookup_empty. reflexivity. }
  { intros protocol _. apply lookup_empty. }
  assert (Hgroups : forall result,
            claimableIncentiveByProtocol claimableIncentive = Done result ->
            forall protocol group,
              result !! protocol = Some group <->
              group = ofProtocol protocol claimableIncentive /\ group <> []).
  { intros result Hrun protocol group.
    rewrite (Hdone result Hrun protocol). simpl. unfold groupOf.
    destruct (ofProtocol protocol claimableIncentive) as [|g0 gs].
    - split; [discriminate | intros [-> Hne]; contradiction].
    - split; [intros [= <-]; split; [reflexivity | discriminate] | intros [-> _]; reflexivity]. }
  split; [exact Herr |]. split; [exact Hgroups |].
  intros result Hrun protocol group Hlook.
  apply (Hgroups result Hrun) in Hlook as [-> Hne].
  destruct (ofProtocol protocol claimableIncentive) as [|first others] eqn:Hof;
    [contradiction |].
  exists first, others. split; [reflexivity |].
  assert (Hin : In first (ofProtocol protocol claimableIncentive))
    by (rewrite Hof; left; reflexivity).
  apply filter_In in Hin as [_ Hname]. apply String.eqb_eq, Hname.
Qed.

Example grouping_demo :
  claimableIncentiveByProtocol Demo.claimData
  = Done (<["Protocol One" := [Demo.recordOf "0xP1" Demo.incentiveA]]>
          (<["Protocol Two" := [Demo.recordOf "0xP2" Demo.incentiveC]]> ∅)) /\
  claimableIncentiveByProtocol
    [TClaimDetails.mk "id" "toString" (JsNumber.of_Z 1) (mkNormalizedBN 1 (JsNumber.of_Z 1))
       None true (TMulticall.mk "0x0" "0x")]
  = TypeError.
Proof. split; vm_compute; reflexivity. Qed.

End GroupingSpec.

(** ** Splitting the path *)

Module SplitSpec.
Import YETH YETHView.

Lemma split_cons (sep c : ascii) (s : string) :
  split sep (String c s)
  = if Ascii.eqb c sep then EmptyString :: split sep s
    else match split sep s with
         | piece :: pieces => String c piece :: pieces
         | [] => [String c EmptyString]
         end.
Proof. reflexivity. Qed.

Lemma split_nonempty (sep : ascii) (s : string) : split sep s <> [].
Proof.
  induction s as [|c s IH]; [discriminate |].
  rewrite split_cons. destruct (Ascii.eqb c sep); [discriminate |].
  destruct (split sep s); [contradiction | discriminate].
Qed.

Lemma split_without (sep : ascii) (s : string) :
  contains sep s = false -> split sep s = [s].
Proof.
  induction s as [|c s IH]; [reflexivity |]. simpl contains. rewrite split_cons.
  destruct (Ascii.eqb c sep); [discriminate |]. simpl. intros Hs.
  rewrite (IH Hs). reflexivity.
Qed.

Lemma append_nil (s : string) : String.append EmptyString s = s.
Proof. reflexivity. Qed.

Lemma append_cons (c : ascii) (s1 s2 : string) :
  String.append (String c s1) s2 = String c (String.append s1 s2).
Proof. reflexivity. Qed.

Lemma split_at_first (sep : ascii) (s1 s2 : string) :
  contains sep s1 = false ->
  split sep (String.append s1 (String sep s2)) = s1 :: split sep s2.
Proof.
  induction s1 as [|c s1 IH]; cbn [contains].
  - intros _. rewrite append_nil, split_cons, Ascii.eqb_refl. reflexivity.
  - rewrite append_cons, split_cons. destruct (Ascii.eqb c sep); [discriminate |].
    cbn [orb]. intros Hs. rewrite (IH Hs). reflexivity.
Qed.

Lemma contains_app (c : ascii) (s1 s2 : string) :
  contains c (String.append s1 s2) = contains c s1 || contains c s2.
Proof.
  induction s1 as [|c1 s1 IH]; [reflexivity |].
  rewrite append_cons. cbn [contains]. rewrite IH.
  destruct (Ascii.eqb c1 c); reflexivity.
Qed.

Lemma join_sep_first (sep : ascii) (piece : string) (pieces : list string) :
  join sep (EmptyString :: piece :: pieces) = String sep (join sep (piece :: pieces)).
Proof. reflexivity. Qed.

Lemma join_char_first (sep c : ascii) (piece : string) (pieces : list string) :
  join sep (String c piece :: pieces) = String c (join sep (piece :: pieces)).
Proof. destruct pieces; reflexivity. Qed.

(** X17: splitting at a character and joining the pieces with it gives
    the string back; no piece holds the character; and there is a single
    piece exactly when the character does not occur. *)
Theorem split_join_round_trip (sep : ascii) (s : string) :
  join sep (split sep s) = s /\
  Forall (fun piece => contains sep piece = false) (split sep s) /\
  (length (split sep s) = 1%nat <-> contains sep s = false).
Proof.
  induction s as [|c s (IHjoin & IHpieces & IHlen)].
  - repeat split; try reflexivity. repeat constructor.
  - rewrite split_cons. cbn [contains].
    destruct (split sep s) as [|piece pieces] eqn:Hs;
      [exfalso; eapply split_nonempty; exact Hs |].
    destruct (Ascii.eqb c sep) eqn:Hc.
    + apply Ascii.eqb_eq in Hc. subst c. split; [| split].
      * rewrite join_sep_first, IHjoin. reflexivity.
      * constructor; [reflexivity | exact IHpieces].
      * cbn [length orb]. split; discriminate.
    + split; [| split].
      * rewrite join_char_first, IHjoin. reflexivity.
      * inversion IHpieces as [|? ? Hpiece Hrest]; subst.
        constructor; [cbn [contains]; rewrite Hc, Hpiece; reflexivity | exact Hrest].
      * cbn [length orb] in *. exact IHlen.
Qed.

End SplitSpec.

(** ** Tabs, links and the pool view *)

Module YETHViewSpec.
Import YETH YETHView SplitSpec.

(** Lowering a character gives ['?'], ['='] or ['&'] for that character
    only. *)
Lemma lowerChar_mark (c mark : ascii) :
  mark = "?"%char \/ mark = "="%char \/ mark = "&"%char ->
  Ascii.eqb (lowerChar c) mark = Ascii.eqb c mark.
Proof.
  intros [->|[->| ->]];
    destruct c as [[] [] [] [] [] [] [] []]; reflexivity.
Qed.

Lemma contains_toLowerCase (mark : ascii) (s : string) :
  mark = "?"%char \/ mark = "="%char \/ mark = "&"%char ->
  contains mark (toLowerCase s) = contains mark s.
Proof.
  intros Hmark. induction s as [|c s IH]; [reflexivity |].
  simpl. rewrite (lowerChar_mark c mark Hmark), IH. reflexivity.
Qed.

Lemma slug_plain (tab : Tab) (mark : ascii) :
  tab ∈ tabs ->
  mark = "?"%char \/ mark = "="%char \/ mark = "&"%char ->
  contains mark (slug tab) = false /\ slug tab <> EmptyString.
Proof.
  unfold tabs. intros Hin Hmark.
  repeat (apply elem_of_cons in Hin as [->|Hin];
          [destruct Hmark as [->|[->| ->]]; split; (reflexivity || discriminate) |]).
  inversion Hin.
Qed.

(** The piece the effect reads when the path has one ['?']. *)
Lemma queryValue_of (path query text : string) :
  contains "?" path = false ->
  contains "?" query = false ->
  split "=" query !! 1%nat = Some text ->
  text <> EmptyString ->
  queryValue (String.append path (String "?" query)) = Some text.
Proof.
  intros Hpath Hquery Hpiece Hne.
  unfold queryValue. rewrite (split_at_first "?" path _ Hpath).
  rewrite (split_without "?" query Hquery). simpl lookup.
  unfold actionTypeOf. rewrite Hpiece. cbv zeta.
  destruct (String.eqb text EmptyString) eqn:He; [| reflexivity].
  apply String.eqb_eq in He. contradiction.
Qed.



(** X14: when a parameter stands before the one that names the tab, the
    effect reads the value of the first together with the name of the
    second, which is no slug, and the Deposit tab stays. *)
Theorem tab_link_after_other_parameter (path name text param rest : string) :
  contains "?" path = false ->
  contains "?" name = false ->
  contains "=" name = false ->
  contains "?" text = false ->
  contains "=" text = false ->
  contains "?" param = false ->
  contains "=" param = false ->
  contains "?" rest = false ->
  initialTab
    (String.append path
       (String "?"
          (String.append name
             (String "="
                (String.append text
                   (String "&" (String.append param (String "=" rest))))))))
  = defaultTab.
Proof.
  intros Hpath Hname1 Hname2 Htext1 Htext2 Hparam1 Hparam2 Hrest.
  set (value := String.append text (String "&" param)).
  assert (Hassoc : String.append text (String "&" (String.append param (String "=" rest)))
                   = String.append value (String "=" rest)).
  { unfold value. clear. induction text as [|c text IH]; [reflexivity |].
    rewrite !append_cons, IH. reflexivity. }
  rewrite Hassoc.
  assert (Hv1 : contains "?" value = false).
  { unfold value. rewrite contains_app. simpl. rewrite Htext1, Hparam1. reflexivity. }
  assert (Hv2 : contains "=" value = false).
  { unfold value. rewrite contains_app. simpl. rewrite Htext2, Hparam2. reflexivity. }
  assert (Hamp : contains "&" value = true).
  { unfold value. rewrite contains_app. simpl. apply orb_true_r. }
  assert (Hnil : value <> EmptyString).
  { intros He. rewrite He in Hamp. discriminate. }
  assert (Hq : queryValue
                 (String.append path
                    (String "?" (String.append name
                                   (String "=" (String.append value (String "=" rest))))))
               = Some value).
  { apply queryValue_of; [exact Hpath | | | exact Hnil].
    - rewrite !contains_app. cbn [contains]. rewrite contains_app. cbn [contains].
      rewrite Hname1, Hv1, Hrest. reflexivity.
    - rewrite (split_at_first "=" name _ Hname2), (split_at_first "=" value _ Hv2).
      reflexivity. }
  rewrite YETHSpec.initialTab_queryValue, Hq. unfold findTab.
  rewrite (proj2 (JsArrayFacts.findIndex_None _ tabs)); [reflexivity |].
  intros tab Hin. apply String.eqb_neq. intros Hslug.
  destruct (slug_plain tab "&" Hin) as [Hno _]; auto.
  rewrite Hslug, contains_toLowerCase, Hamp in Hno by auto. discriminate.
Qed.

Lemma tab_link_after_other_parameter_demo :
  initialTab "/app?ref=home&action=swap" = defaultTab.
Proof.
  apply (tab_link_after_other_parameter "/app" "ref" "home" "action" "swap");
    reflexivity.
Defined.

End YETHViewSpec.

Module YETHStateSpec.
Import YETH YETHView.

Lemma mountEffect_in_tabs (asPath : string) (currentTab : Tab) :
  currentTab ∈ tabs -> mountEffect asPath currentTab ∈ tabs.
Proof.
  intros Hin. unfold mountEffect.
  destruct (split "?" asPath !! 1%nat); [| exact Hin].
  cbv zeta. destruct (String.eqb _ EmptyString); [exact Hin |].
  destruct (findTab _) as [i|]; [| exact Hin].
  destruct (tabs !! i) as [tab|] eqn:Htab; [| exact Hin].
  eapply list_elem_of_lookup_2. exact Htab.
Qed.

Lemma onListboxChange_in_tabs (v : Z) (currentTab : Tab) :
  currentTab ∈ tabs -> onListboxChange v currentTab ∈ tabs.
Proof.
  intros Hin. unfold onListboxChange.
  destruct (List.find _ tabs) as [tab|] eqn:Hfind; [| exact Hin].
  apply find_some in Hfind as [Htab _]. apply list_elem_of_In, Htab.
Qed.

Lemma step_in_tabs (currentTab : Tab) (event : Event) :
  currentTab ∈ tabs -> step currentTab event ∈ tabs.
Proof.
  intros Hin. destruct event as [asPath|position|v]; simpl.
  - apply mountEffect_in_tabs, Hin.
  - destruct (tabs !! position) as [tab|] eqn:Htab; [| exact Hin].
    eapply list_elem_of_lookup_2. exact Htab.
  - apply onListboxChange_in_tabs, Hin.
Qed.

Lemma fold_step_in_tabs (events : list Event) (currentTab : Tab) :
  currentTab ∈ tabs -> fold_left step events currentTab ∈ tabs.
Proof.
  revert currentTab. induction events as [|event events IH]; intros currentTab Hin.
  - exact Hin.
  - simpl. apply IH, step_in_tabs, Hin.
Qed.

(** X12: whatever the path at mount and whatever is clicked or chosen
    afterwards, the current tab is one of the four tabs, it sits in
    [tabs] at the position its value gives, and the four tabs render four
    different views: the fallback of [renderTab] never decides. *)
Theorem current_tab_always_listed (events : list Event) :
  run events ∈ tabs /\
  0 <= value (run events) <= 3 /\
  tabs !! Z.to_nat (value (run events)) = Some (run events) /\
  (forall tab tab', tab ∈ tabs -> tab' ∈ tabs ->
     renderTab tab = renderTab tab' -> tab = tab').
Proof.
  assert (Hin : run events ∈ tabs).
  { unfold run. apply fold_step_in_tabs. left. }
  split; [exact Hin |].
  assert (Hall : forall tab, tab ∈ tabs ->
            0 <= value tab <= 3 /\ tabs !! Z.to_nat (value tab) = Some tab).
  { unfold tabs. intros tab Ht.
    repeat (apply elem_of_cons in Ht as [->|Ht]; [split; [simpl; lia | reflexivity] |]).
    inversion Ht. }
  destruct (Hall _ Hin) as [Hrange Hpos]. split; [exact Hrange |]. split; [exact Hpos |].
  unfold tabs. intros tab tab' Ht Ht'.
  repeat (apply elem_of_cons in Ht as [->|Ht]);
    repeat (apply elem_of_cons in Ht' as [->|Ht']);
    try (inversion Ht); try (inversion Ht');
    simpl; intros Hview; (reflexivity || discriminate).
Qed.

(** X16: a choice in the listbox shows the tab that has the chosen
    value, and a value no tab has leaves the current tab. *)
Theorem listbox_choice (v : Z) (currentTab : Tab) :
  (forall tab, tab ∈ tabs -> value tab = v -> onListboxChange v currentTab = tab) /\
  ((forall tab, tab ∈ tabs -> value tab <> v) -> onListboxChange v currentTab = currentTab).
Proof.
  split.
  - unfold tabs. intros tab Hin <-.
    repeat (apply elem_of_cons in Hin as [->|Hin]; [reflexivity |]).
    inversion Hin.
  - intros Hno. unfold onListboxChange.
    destruct (List.find _ tabs) as [tab|] eqn:Hfind; [| reflexivity].
    apply find_some in Hfind as [Htab Hv]. apply Z.eqb_eq in Hv.
    exfalso. apply (Hno tab); [apply list_elem_of_In, Htab | exact Hv].
Qed.

(** X15: a trigger leaves the pool flag equal to its direction; a
    trigger in the direction the flag already has changes nothing and
    starts no animation, a trigger in the other direction starts four;
    and from the initial state the theme class is on the body exactly
    while the pool view is rendered. *)
Theorem pool_view_follows_direction (direction : bool) (st : PoolState)
    (directions : list bool) :
  shouldRenderPool (triggerPoolView direction st) = direction /\
  (shouldRenderPool st = direction -> triggerPoolView direction st = st) /\
  (shouldRenderPool st <> direction ->
   lpPoolTheme (triggerPoolView direction st) = direction /\
   length (animations (triggerPoolView direction st))
   = (length (animations st) + 4)%nat) /\
  triggerPoolView direction (triggerPoolView direction st) = triggerPoolView direction st /\
  lpPoolTheme (afterTriggers directions initialPoolState)
  = shouldRenderPool (afterTriggers directions initialPoolState) /\
  lpPoolTheme (unmountEffect (afterTriggers directions initialPoolState)) = false.
Proof.
  assert (Hflag : forall d s, shouldRenderPool (triggerPoolView d s) = d).
  { intros d s. unfold triggerPoolView.
    destruct d, (shouldRenderPool s) eqn:Hs; simpl; auto. }
  assert (Hsame : forall d s, shouldRenderPool s = d -> triggerPoolView d s = s).
  { intros d s <-. unfold triggerPoolView. rewrite Bool.eqb_reflx. reflexivity. }
  split; [apply Hflag |]. split; [apply Hsame |]. split; [| split; [| split]].
  - intros Hne. unfold triggerPoolView.
    destruct direction, (shouldRenderPool st); simpl; try contradiction;
      rewrite length_app; simpl; auto.
  - apply Hsame, Hflag.
  - unfold afterTriggers.
    assert (Hinv : forall s, lpPoolTheme s = shouldRenderPool s ->
              lpPoolTheme (fold_left (fun st d => triggerPoolView d st) directions s)
              = shouldRenderPool (fold_left (fun st d => triggerPoolView d st) directions s)).
    { induction directions as [|d directions IH]; intros s Hs; [exact Hs |].
      simpl. apply IH. unfold triggerPoolView.
      destruct s as [flag theme started]. simpl in *. subst theme.
      destruct d, flag; reflexivity. }
    apply Hinv. reflexivity.
  - reflexivity.
Qed.

Lemma pool_view_follows_direction_demo :
  triggerPoolView true (mkPoolState true true [TabsAway; TitleUp; CompositionAway; PoolOpen])
  = mkPoolState true true [TabsAway; TitleUp; CompositionAway; PoolOpen] /\
  lpPoolTheme (triggerPoolView false
                 (mkPoolState true true [TabsAway; TitleUp; CompositionAway; PoolOpen]))
  = false.
Proof.
  split.
  - apply (proj1 (proj2 (pool_view_follows_direction true
                           (mkPoolState true true [TabsAway; TitleUp; CompositionAway; PoolOpen])
                           []))).
    reflexivity.
  - apply (proj1 (proj2 (proj2 (pool_view_follows_direction false
                           (mkPoolState true true [TabsAway; TitleUp; CompositionAway; PoolOpen])
                           [])))).
    discriminate.
Defined.

End YETHStateSpec.

(** ** The total the user deposited *)

Module DepositHeaderSpec.
Import DepositHeader.

(** X18: the user's total deposit is never [NaN] nor [-0]: it is zero for
    an absent or empty history, and otherwise the running sum of the
    normalized amounts, with zero in place of a sum that is [NaN] or a
    zero. *)
Theorem userTotalDeposited_never_NaN
    (toNormalizedBN : Z -> Z -> TNormalizedBN) (history : option (list THistoryItem)) :
  userTotalDeposited toNormalizedBN history <> S754_nan /\
  userTotalDeposited toNormalizedBN history <> S754_zero true /\
  userTotalDeposited toNormalizedBN None = JsNumber.of_Z 0 /\
  userTotalDeposited toNormalizedBN (Some []) = JsNumber.of_Z 0 /\
  (forall items item,
     JsNumber.truthy
       (JsNumber.add (userTotalDeposited toNormalizedBN (Some items))
          (normalized (toNormalizedBN (stTokenAmount item) (votedAssetDecimals item))))
     = true ->
     JsNumber.truthy (userTotalDeposited toNormalizedBN (Some items)) = true ->
     userTotalDeposited toNormalizedBN (Some (items ++ [item]))
     = JsNumber.add (userTotalDeposited toNormalizedBN (Some items))
         (normalized (toNormalizedBN (stTokenAmount item) (votedAssetDecimals item)))).
Proof.
  assert (Hor : forall a, JsNumber.or_zero a <> S754_nan /\ JsNumber.or_zero a <> S754_zero true).
  { intros a. destruct a as [[|]|[|]| |[|] m e]; cbv; split; discriminate. }
  split; [| split; [| split; [| split]]].
  - destruct history as [items|]; [apply Hor | discriminate].
  - destruct history as [items|]; [apply Hor | discriminate].
  - reflexivity.
  - reflexivity.
  - intros items item Hsum Hprev. unfold userTotalDeposited in *.
    rewrite fold_left_app. cbn [fold_left].
    set (sum := fold_left _ items _) in *.
    assert (Hid : JsNumber.or_zero sum = sum).
    { unfold JsNumber.or_zero in *. destruct (JsNumber.truthy sum) eqn:Ht; [reflexivity |].
      simpl in Hprev. discriminate. }
    rewrite Hid in Hsum. unfold JsNumber.or_zero at 1. rewrite Hsum, Hid. reflexivity.
Qed.

End DepositHeaderSpec.

(** ** The tab a link shows *)

Module YETHLinkSpec.
Import YETH YETHView UrlQuery SplitSpec YETHViewSpec.






End YETHLinkSpec.
